(** * fbmessenger-nickname-record: the nickname finder of [main.py]

    A shallow embedding of [FBNicknameFinder] and of the script's entry
    point, followed by the properties of the extraction pipeline.

    Python values are embedded as follows.
    - A [str] is the list of its Unicode code points ([pystr]); [bytes] are
      a list of integers below 256.
    - What [json.load] returns is a [pyval].  A [dict] is an association
      list in insertion order whose keys are distinct ([json.load] keeps
      the last of two equal keys); lookup returns the first binding.
    - An exception is a value of [exn]; code that can raise returns
      [exc A].
    - [print] and the write of [writeResult] are recorded, in order, in
      the [trace] of the interpreter state; whether the write goes through
      is up to the file system. *)

From Stdlib Require Import ZArith List String Ascii Bool Lia.
Import ListNotations.
Open Scope Z_scope.

(** ** Strings *)

Definition pystr := list Z.

(** An ASCII literal of the source as a Python string. *)
Definition str (s : string) : pystr :=
  map (fun a => Z.of_N (N_of_ascii a)) (list_ascii_of_string s).

(** [==] on two strings. *)
Fixpoint str_eqb (a b : pystr) : bool :=
  match a, b with
  | [], [] => true
  | x :: a', y :: b' => (x =? y) && str_eqb a' b'
  | _, _ => false
  end.

(** ** Exceptions *)

Inductive exn : Type :=
| KeyError (key : pystr)
| TypeError
| UnicodeEncodeError
| UnicodeDecodeError
| OSError.

Inductive exc (A : Type) : Type :=
| Ok (a : A)
| Raise (e : exn).
Arguments Ok {A} a.
Arguments Raise {A} e.

Definition bind {A B : Type} (c : exc A) (k : A -> exc B) : exc B :=
  match c with
  | Ok a => k a
  | Raise e => Raise e
  end.

Notation "x <- c ;; k" := (bind c (fun x => k))
  (at level 61, c at next level, right associativity).

(** ** Codecs: [str.encode] and [bytes.decode] *)

Module Codec.

(** [s.encode('latin1')]: every code point below 256 is its own byte. *)
Fixpoint encode_latin1 (s : pystr) : exc (list Z) :=
  match s with
  | [] => Ok []
  | c :: s' =>
      if (0 <=? c) && (c <? 256)
      then bs <- encode_latin1 s' ;; Ok (c :: bs)
      else Raise UnicodeEncodeError
  end.

(** [b.decode('latin1')]: every byte is a code point; never fails. *)
Definition decode_latin1 (bs : list Z) : pystr := bs.

(** The UTF-8 bytes of one code point.  Surrogates (U+D800..U+DFFF) have
    no encoding under the strict error handler. *)
Definition utf8_char (c : Z) : exc (list Z) :=
  if c <? 0 then Raise UnicodeEncodeError
  else if c <? 0x80 then Ok [c]
  else if c <? 0x800 then
    Ok [Z.lor 0xC0 (Z.shiftr c 6); Z.lor 0x80 (Z.land c 0x3F)]
  else if (0xD800 <=? c) && (c <=? 0xDFFF) then Raise UnicodeEncodeError
  else if c <? 0x10000 then
    Ok [Z.lor 0xE0 (Z.shiftr c 12);
        Z.lor 0x80 (Z.land (Z.shiftr c 6) 0x3F);
        Z.lor 0x80 (Z.land c 0x3F)]
  else if c <=? 0x10FFFF then
    Ok [Z.lor 0xF0 (Z.shiftr c 18);
        Z.lor 0x80 (Z.land (Z.shiftr c 12) 0x3F);
        Z.lor 0x80 (Z.land (Z.shiftr c 6) 0x3F);
        Z.lor 0x80 (Z.land c 0x3F)]
  else Raise UnicodeEncodeError.

(** [s.encode('utf-8')]. *)
Fixpoint encode_utf8 (s : pystr) : exc (list Z) :=
  match s with
  | [] => Ok []
  | c :: s' =>
      bs <- utf8_char c ;;
      rest <- encode_utf8 s' ;;
      Ok (bs ++ rest)
  end.

(** [lo <= b <= hi]. *)
Definition between (lo hi b : Z) : bool := (lo <=? b) && (b <=? hi).

(** The six payload bits of a continuation byte. *)
Definition low6 (b : Z) : Z := Z.land b 0x3F.

(** [b.decode('utf-8')] with the strict error handler: the well-formed
    sequences are those of the Unicode standard (no overlong form, no
    surrogate, nothing above U+10FFFF); anything else raises. *)
Fixpoint decode_utf8 (bs : list Z) : exc pystr :=
  match bs with
  | [] => Ok []
  | b0 :: r0 =>
      if between 0x00 0x7F b0 then
        s <- decode_utf8 r0 ;; Ok (b0 :: s)
      else
        match r0 with
        | [] => Raise UnicodeDecodeError
        | b1 :: r1 =>
            if between 0xC2 0xDF b0 then
              if between 0x80 0xBF b1 then
                s <- decode_utf8 r1 ;;
                Ok (Z.lor (Z.shiftl (Z.land b0 0x1F) 6) (low6 b1) :: s)
              else Raise UnicodeDecodeError
            else
              match r1 with
              | [] => Raise UnicodeDecodeError
              | b2 :: r2 =>
                  if between 0xE0 0xEF b0 then
                    if between (if b0 =? 0xE0 then 0xA0 else 0x80)
                               (if b0 =? 0xED then 0x9F else 0xBF) b1
                       && between 0x80 0xBF b2 then
                      s <- decode_utf8 r2 ;;
                      Ok (Z.lor (Z.lor (Z.shiftl (Z.land b0 0x0F) 12)
                                       (Z.shiftl (low6 b1) 6))
                                (low6 b2) :: s)
                    else Raise UnicodeDecodeError
                  else
                    match r2 with
                    | [] => Raise UnicodeDecodeError
                    | b3 :: r3 =>
                        if between 0xF0 0xF4 b0 then
                          if between (if b0 =? 0xF0 then 0x90 else 0x80)
                                     (if b0 =? 0xF4 then 0x8F else 0xBF) b1
                             && between 0x80 0xBF b2
                             && between 0x80 0xBF b3 then
                            s <- decode_utf8 r3 ;;
                            Ok (Z.lor (Z.lor (Z.lor
                                  (Z.shiftl (Z.land b0 0x07) 18)
                                  (Z.shiftl (low6 b1) 12))
                                  (Z.shiftl (low6 b2) 6))
                                  (low6 b3) :: s)
                          else Raise UnicodeDecodeError
                        else Raise UnicodeDecodeError
                    end
              end
        end
  end.

End Codec.

(** ** Values of the parsed documents *)

#[warnings="-register-all"] Inductive pyval : Type :=
| PNone
| PBool (b : bool)
| PInt (n : Z)
| PFloat (bits : Z)               (* a float, by its binary64 pattern *)
| PStr (s : pystr)
| PList (l : list pyval)
| PDict (d : list (pystr * pyval)).

(** The first binding of key [k]. *)
Fixpoint lookup (k : pystr) (d : list (pystr * pyval)) : option pyval :=
  match d with
  | [] => None
  | (k', v) :: d' => if str_eqb k' k then Some v else lookup k d'
  end.

(** [v[k]] for a string key [k]: only a dict can be indexed by a string. *)
Definition subscript (v : pyval) (k : pystr) : exc pyval :=
  match v with
  | PDict d =>
      match lookup k d with
      | Some x => Ok x
      | None => Raise (KeyError k)
      end
  | _ => Raise TypeError
  end.

(** [k in v] for a dict [v]. *)
Definition contains (k : pystr) (d : list (pystr * pyval)) : bool :=
  match lookup k d with
  | Some _ => true
  | None => false
  end.

(** The elements [for x in v] runs over: the items of a list, the keys of
    a dict, the characters of a string; anything else is not iterable. *)
Definition iter (v : pyval) : exc (list pyval) :=
  match v with
  | PList l => Ok l
  | PDict d => Ok (map (fun kv => PStr (fst kv)) d)
  | PStr s => Ok (map (fun c => PStr [c]) s)
  | _ => Raise TypeError
  end.

(** [v == s] for a string [s]: a value of another type is never equal to
    a string. *)
Definition eq_str (v : pyval) (s : pystr) : bool :=
  match v with
  | PStr t => str_eqb t s
  | _ => false
  end.

(** Truth value of an [Optional[str]]. *)
Definition truthy (u : option pystr) : bool :=
  match u with
  | Some (_ :: _) => true
  | _ => false
  end.

(** ** The compiled pattern [_REGEX] *)

Module Regex.

(** [MATCH_PHRASE]. *)
Definition MATCH_PHRASE : pystr := str " set your nickname to ".

(** [.] without [re.DOTALL]: any character except a newline. *)
Definition dot (c : Z) : bool := negb (c =? 10).

(** The rest of [s] after the literal [p], when [s] starts with [p]. *)
Fixpoint strip_prefix (p s : pystr) : option pystr :=
  match p, s with
  | [], _ => Some s
  | x :: p', y :: s' => if x =? y then strip_prefix p' s' else None
  | _ :: _, [] => None
  end.

(** [.+\Z] at the head of [s]: the greedy [.+] has to reach the end of the
    string, so [s] is non-empty and holds no newline. *)
Definition dot_plus_end (s : pystr) : bool :=
  match s with
  | [] => false
  | _ :: _ => forallb dot s
  end.

(** The pattern [MATCH_PHRASE + '.+\Z'] at the head of [s]; the result is
    [group(0)], which runs to the end of [s]. *)
Definition match_here (s : pystr) : option pystr :=
  match strip_prefix MATCH_PHRASE s with
  | Some rest => if dot_plus_end rest then Some s else None
  | None => None
  end.

(** [search]: the leftmost offset at which the pattern matches, as
    [(start(), group(0))]; [i] is the offset of [s] in the subject. *)
Fixpoint search_from (i : nat) (s : pystr) : option (nat * pystr) :=
  match match_here s with
  | Some g => Some (i, g)
  | None =>
      match s with
      | [] => None
      | _ :: s' => search_from (S i) s'
      end
  end.

Definition search (s : pystr) : option (nat * pystr) := search_from 0 s.

End Regex.

(** [_PHRASE_OFFSET = len(MATCH_PHRASE)]. *)
Definition _PHRASE_OFFSET : nat := List.length Regex.MATCH_PHRASE.

(** [g[a:-1]]. *)
Definition slice_to_last (a : nat) (g : pystr) : pystr :=
  removelast (skipn a g).

(** ** The finder *)

(** One item of [self._result]. *)
Record nickname_record : Type := mkRecord {
  timestamp_ms : pyval;
  nickname : pystr
}.

(** What the run prints or writes. *)
Inductive event : Type :=
| INFO_skipping (username : pystr)
| WARN_not_a_file (f : pystr)
| WARN_not_json (f : pystr)
| Error_bad_json (f : pystr)
| FATAL_invalid_directory (path : pystr)
| Found_nicknames (n : nat)
| Nickname_line (name : pystr) (count : nat)
| Output_written (outfile : pystr)
| Print_help
| File_written (outfile : pystr) (result : list nickname_record) (length : nat).

(** The finder object together with the trace of the run.  The attributes
    [_result] and [crashed] are created by [_initProcess]; every method that
    reads them is called after it. *)
Record finder : Type := mkFinder {
  username : option pystr;
  _result : list nickname_record;
  crashed : bool;
  trace : list event
}.

Definition print (self : finder) (e : event) : finder :=
  mkFinder (username self) (_result self) (crashed self) (trace self ++ [e]).

Definition append_result (self : finder) (r : nickname_record) : finder :=
  mkFinder (username self) (_result self ++ [r]) (crashed self) (trace self).

(** [__init__]. *)
Definition __init__ : finder := mkFinder None [] false [].

(** [_fixMojibake]. *)
Definition _fixMojibake (s : pystr) : exc pystr :=
  bs <- Codec.encode_latin1 s ;; Codec.decode_utf8 bs.

(** [_unfixMojibake]. *)
Definition _unfixMojibake (s : pystr) : exc pystr :=
  bs <- Codec.encode_utf8 s ;; Ok (Codec.decode_latin1 bs).

(** [setUsername]; the line is printed before the conversion can raise. *)
Definition setUsername (self : finder) (u : option pystr) : finder * option exn :=
  if truthy u then
    match u with
    | Some name =>
        let self1 := print self (INFO_skipping name) in
        match _unfixMojibake name with
        | Ok v => (mkFinder (Some v) (_result self1) (crashed self1) (trace self1), None)
        | Raise e => (self1, Some e)
        end
    | None => (self, None)
    end
  else (self, None).

(** [_initProcess]. *)
Definition _initProcess (self : finder) : finder :=
  mkFinder (username self) [] false (trace self).

(** [v == self.username]: [None] equals only [None]. *)
Definition eq_username (v : pyval) (u : option pystr) : bool :=
  match u with
  | Some s => eq_str v s
  | None => match v with PNone => true | _ => false end
  end.

(** [_isParticipant]. *)
Fixpoint isParticipant_loop (u : option pystr) (ps : list pyval) : exc bool :=
  match ps with
  | [] => Ok false
  | p :: ps' =>
      name <- subscript p (str "name") ;;
      if eq_username name u then Ok true else isParticipant_loop u ps'
  end.

Definition _isParticipant (self : finder) (participants : pyval) : exc bool :=
  ps <- iter participants ;; isParticipant_loop (username self) ps.

(** ['content' in m]; it is evaluated after [m['type']] has been read, so
    [m] is a dict there. *)
Definition key_in (k : pystr) (m : pyval) : bool :=
  match m with
  | PDict d => contains k d
  | _ => false
  end.

(** The body of the loop over the messages of one file. *)
Definition scan_message (self : finder) (m : pyval) : exc finder :=
  own <- (if truthy (username self)
          then sender <- subscript m (str "sender_name") ;;
               Ok (eq_username sender (username self))
          else Ok false) ;;
  if own then Ok self
  else
    type <- subscript m (str "type") ;;
    if negb (eq_str type (str "Generic")) || negb (key_in (str "content") m)
    then Ok self
    else
      content <- subscript m (str "content") ;;
      match content with
      | PStr c =>
          match Regex.search c with
          | Some (start, group0) =>
              if (0 <? start)%nat then
                let rawFoundNickname := slice_to_last _PHRASE_OFFSET group0 in
                foundNickname <- _fixMojibake rawFoundNickname ;;
                ts <- subscript m (str "timestamp_ms") ;;
                Ok (append_result self (mkRecord ts foundNickname))
              else Ok self
          | None => Ok self
          end
      | _ => Raise TypeError       (* [search] wants a string *)
      end.

(** [for m in ...]: the loop stops at the first exception, with the
    records appended so far. *)
Fixpoint scan_messages (self : finder) (ms : list pyval) : finder * option exn :=
  match ms with
  | [] => (self, None)
  | m :: ms' =>
      match scan_message self m with
      | Ok self' => scan_messages self' ms'
      | Raise e => (self, Some e)
      end
  end.

(** The condition [self.username and not
    self._isParticipant(jdata['participants'])]. *)
Definition not_participant (self : finder) (jdata : pyval) : exc bool :=
  if truthy (username self)
  then ps <- subscript jdata (str "participants") ;;
       b <- _isParticipant self ps ;;
       Ok (negb b)
  else Ok false.

(** The second [try] block of [_findInFile], before its handler. *)
Definition scan_document (self : finder) (jdata : pyval) : finder * option exn :=
  match not_participant self jdata with
  | Raise e => (self, Some e)
  | Ok true => (self, None)
  | Ok false =>
      match (ms <- subscript jdata (str "messages") ;; iter ms) with
      | Raise e => (self, Some e)
      | Ok ms => scan_messages self ms
      end
  end.

(** The file system as the run sees it.  [load f] is [json.load] on the
    content of [f]; [None] when [open] or [json.load] raises.  [listdir]
    is only called on a path for which [isdir] holds.  [dump outfile
    result] is the outcome of [open(outfile, 'w')] followed by [json.dump]
    of the result: [None] when both go through, the exception otherwise
    ([OSError] when the file cannot be opened, [UnicodeEncodeError] when
    the text cannot be encoded for the file). *)
Record filesystem : Type := mkFS {
  isfile : pystr -> bool;
  isdir : pystr -> bool;
  listdir : pystr -> list pystr;
  load : pystr -> option pyval;
  dump : pystr -> list nickname_record -> option exn
}.

(** [_findInFile]. *)
Definition _findInFile (fs : filesystem) (self : finder) (f : pystr) : finder :=
  match load fs f with
  | None => print self (WARN_not_json f)
  | Some jdata =>
      match scan_document self jdata with
      | (self', None) => self'
      | (self', Some _) => print self' (Error_bad_json f)
      end
  end.

(** [findInFiles]. *)
Fixpoint findInFiles_loop (fs : filesystem) (self : finder) (files : list pystr) : finder :=
  match files with
  | [] => self
  | f :: files' =>
      if negb (isfile fs f)
      then findInFiles_loop fs (print self (WARN_not_a_file f)) files'
      else findInFiles_loop fs (_findInFile fs self f) files'
  end.

Definition findInFiles (fs : filesystem) (self : finder) (files : list pystr) : finder :=
  findInFiles_loop fs (_initProcess self) files.

(** [os.path.join] on two components. *)
Definition path_join (path f : pystr) : pystr :=
  match f with
  | 47 :: _ => f
  | _ =>
      match path with
      | [] => f
      | _ :: _ => if last path 0 =? 47 then path ++ f else path ++ 47 :: f
      end
  end.

(** [findInDirectory]. *)
Definition findInDirectory (fs : filesystem) (self : finder) (path : pystr) : finder :=
  let self := _initProcess self in
  if negb (isdir fs path) then print self (FATAL_invalid_directory path)
  else fold_left (fun self f => _findInFile fs self (path_join path f))
                 (listdir fs path) self.

(** [collections.Counter] over the nicknames, in first-seen order. *)
Fixpoint count_add (name : pystr) (c : list (pystr * nat)) : list (pystr * nat) :=
  match c with
  | [] => [(name, 1%nat)]
  | (n, k) :: c' =>
      if str_eqb n name then (n, S k) :: c' else (n, k) :: count_add name c'
  end.

Definition Counter (names : list pystr) : list (pystr * nat) :=
  fold_left (fun c n => count_add n c) names [].

(** [printResult]. *)
Definition printResult (self : finder) : finder :=
  let distinctNames := Counter (map nickname (_result self)) in
  fold_left (fun self nc => print self (Nickname_line (fst nc) (snd nc)))
            distinctNames
            (print self (Found_nicknames (List.length distinctNames))).

(** [writeResult]: the file holds the result and its length when [open]
    and [json.dump] go through; when one of them raises, the exception
    leaves the method and no complete file is there. *)
Definition writeResult (fs : filesystem) (self : finder) (outfile : pystr)
  : finder * option exn :=
  match dump fs outfile (_result self) with
  | None =>
      (print self (File_written outfile (_result self)
                                (List.length (_result self))), None)
  | Some e => (self, Some e)
  end.

(** ** The entry point *)

(** The parsed command line. *)
Record args : Type := mkArgs {
  args_file : list pystr;
  args_directory : option pystr;
  args_username : option pystr;
  args_output : pystr
}.

(** How the process ends. *)
Inductive exit : Type :=
| Completed
| SysExit (code : Z)
| Uncaught (e : exn).

(** The [__main__] block, after [parse_args]. *)
Definition main (fs : filesystem) (a : args) : finder * exit :=
  match setUsername __init__ (args_username a) with
  | (finder, Some e) => (finder, Uncaught e)
  | (finder, None) =>
      let searched :=
        match args_directory a with
        | Some (c :: d) => Some (findInDirectory fs finder (c :: d))
        | _ =>
            match args_file a with
            | _ :: _ => Some (findInFiles fs finder (args_file a))
            | [] => None
            end
        end in
      match searched with
      | None => (print finder Print_help, SysExit 0)
      | Some finder =>
          if negb (crashed finder) then
            let finder := printResult finder in
            match writeResult fs finder (args_output a) with
            | (finder, Some e) => (finder, Uncaught e)
            | (finder, None) =>
                (print finder (Output_written (args_output a)), Completed)
            end
          else (finder, Completed)
      end
  end.

(** * Vocabulary of the statements *)

(** A code point the strict UTF-8 encoder accepts: a Unicode scalar value. *)
Definition scalar (c : Z) : Prop :=
  0 <= c <= 0x10FFFF /\ ~ (0xD800 <= c <= 0xDFFF).

(** The value of one byte. *)
Definition byte (b : Z) : Prop := 0 <= b < 256.

(** What a match of [_REGEX] at the head of [s] means: [s] is the phrase
    followed by one or more characters, none of them a newline. *)
Definition phrase_match (s : pystr) : Prop :=
  exists rest, s = Regex.MATCH_PHRASE ++ rest /\ rest <> [] /\
               Forall (fun c => c <> 10) rest.

(** A finder with username [u] that has found nothing yet. *)
Definition fresh (u : option pystr) : finder := mkFinder u [] false [].

(** [self] with the records [rs] appended to its result. *)
Definition extend (self : finder) (rs : list nickname_record) : finder :=
  mkFinder (username self) (_result self ++ rs) (crashed self) (trace self).

(** The message [d] is not one of the user's own: no username is
    configured, or the sender is somebody else. *)
Definition other_sender (self : finder) (d : list (pystr * pyval)) : Prop :=
  truthy (username self) = false \/
  exists v, lookup (str "sender_name") d = Some v /\
            eq_username v (username self) = false.

(** The message [d] is a Generic message with the string [c] as content. *)
Definition generic_content (d : list (pystr * pyval)) (c : pystr) : Prop :=
  (exists ty, lookup (str "type") d = Some ty /\
              eq_str ty (str "Generic") = true) /\
  lookup (str "content") d = Some (PStr c).

(** The records one message yields on its own. *)
Definition message_records (u : option pystr) (m : pyval) : list nickname_record :=
  match scan_message (fresh u) m with
  | Ok s => _result s
  | Raise _ => []
  end.

(** The records file [f] yields when it is processed on its own. *)
Definition file_records (fs : filesystem) (u : option pystr) (f : pystr)
  : list nickname_record :=
  _result (_findInFile fs (fresh u) f).

(** The fields of a Generic text message. *)
Definition message_fields (sender : pystr) (ts : Z) (content : pystr)
  : list (pystr * pyval) :=
  [(str "sender_name", PStr sender); (str "timestamp_ms", PInt ts);
   (str "content", PStr content); (str "type", PStr (str "Generic"))].

(** A nickname of two lines. *)
Definition two_line_nickname : pystr := str "Bo" ++ 10 :: str "b".

(** The message by which Sam sets the nickname of two lines. *)
Definition two_line_message : list (pystr * pyval) :=
  message_fields (str "Sam") 5
    (str "Sam" ++ Regex.MATCH_PHRASE ++ two_line_nickname ++ str ".").

(** A file system that holds the single regular file [f], whose content
    parses to [jdata], and in which every write goes through. *)
Definition one_file (f : pystr) (jdata : pyval) : filesystem :=
  mkFS (fun g => str_eqb g f) (fun _ => false) (fun _ => [])
       (fun g => if str_eqb g f then Some jdata else None)
       (fun _ _ => None).

(** A conversation between Alice and Sam with the given messages. *)
Definition conversation (ms : list pyval) : pyval :=
  PDict [(str "participants",
          PList [PDict [(str "name", PStr (str "Alice"))];
                 PDict [(str "name", PStr (str "Sam"))]]);
         (str "messages", PList ms)].

(** Three nickname messages, the second with a nickname that is not
    mojibake. *)
Definition broken_conversation : pyval :=
  conversation
    [PDict (message_fields (str "Sam") 5 (str "Sam set your nickname to Bob."));
     PDict (message_fields (str "Sam") 6
              (str "Sam set your nickname to " ++ 233 :: str "."));
     PDict (message_fields (str "Sam") 7 (str "Sam set your nickname to Rob."))].

(** A file whose only participant entry exposes no name. *)
Definition nameless_participant : pyval :=
  PDict [(str "participants", PList [PDict [(str "id", PInt 1)]]);
         (str "messages", PList [])].

(** A conversation in which the same message occurs twice. *)
Definition repeated_conversation : pyval :=
  conversation
    [PDict (message_fields (str "Sam") 5 (str "Sam set your nickname to Bob."));
     PDict (message_fields (str "Sam") 5 (str "Sam set your nickname to Bob."))].

(** A file system without any directory, in which every write goes
    through. *)
Definition empty_filesystem : filesystem :=
  mkFS (fun _ => false) (fun _ => false) (fun _ => []) (fun _ => None)
       (fun _ _ => None).

(** A nickname that can be printed and written: Unicode scalar values
    only, on one line. *)
Definition clean (n : pystr) : Prop := Forall scalar n /\ ~ In 10 n.

(** The sum of the counts of a counter. *)
Definition total (c : list (pystr * nat)) : nat :=
  fold_right (fun nc t => (snd nc + t)%nat) 0%nat c.

(** The search [main] runs when a directory or a file is given: directory
    mode when the directory is a non-empty string, the files otherwise. *)
Definition searched (fs : filesystem) (finder0 : finder) (a : args) : finder :=
  match args_directory a with
  | Some (c :: d) => findInDirectory fs finder0 (c :: d)
  | _ => findInFiles fs finder0 (args_file a)
  end.

(** Equality of strings is decidable. *)
Definition pystr_eq_dec : forall a b : pystr, {a = b} + {a <> b} :=
  list_eq_dec Z.eq_dec.

(** The nicknames of the result, in its order. *)
Definition nicknames (self : finder) : list pystr :=
  map nickname (_result self).

(** * Properties *)

(** ** Bytes and bit operations *)

Ltac dlia := Z.div_mod_to_equations; lia.

Lemma lor_add (a x p k : Z) :
  0 <= k -> p = 2 ^ k -> 0 <= x < p -> a mod p = 0 -> Z.lor a x = a + x.
Proof.
  intros Hk -> Hx Ha.
  assert (Hd : Z.land a x = 0).
  { apply Z.bits_inj'; intros n Hn.
    rewrite Z.land_spec, Z.bits_0.
    destruct (Z_lt_le_dec n k) as [Hlt | Hge].
    - assert (Hm : a = (a / 2 ^ k) * 2 ^ k).
      { pose proof (Z.div_mod a (2 ^ k)). lia. }
      rewrite Hm, Z.mul_pow2_bits_low by lia. reflexivity.
    - rewrite <- (Z.mod_small x (2 ^ k)) by lia.
      rewrite Z.mod_pow2_bits_high by lia. apply andb_false_r. }
  rewrite <- Z.lxor_lor by exact Hd.
  symmetry. apply Z.add_nocarry_lxor. exact Hd.
Qed.

Lemma land_mask (x k : Z) : 0 <= k -> Z.land x (2 ^ k - 1) = x mod 2 ^ k.
Proof.
  intros Hk. rewrite <- Z.land_ones by exact Hk.
  f_equal. rewrite Z.ones_equiv. lia.
Qed.

Lemma land_0x3F x : Z.land x 0x3F = x mod 64.
Proof. exact (land_mask x 6 ltac:(lia)). Qed.

Lemma land_0x1F x : Z.land x 0x1F = x mod 32.
Proof. exact (land_mask x 5 ltac:(lia)). Qed.

Lemma land_0x0F x : Z.land x 0x0F = x mod 16.
Proof. exact (land_mask x 4 ltac:(lia)). Qed.

Lemma land_0x07 x : Z.land x 0x07 = x mod 8.
Proof. exact (land_mask x 3 ltac:(lia)). Qed.

Lemma shiftr_6 x : Z.shiftr x 6 = x / 64.
Proof. exact (Z.shiftr_div_pow2 x 6 ltac:(lia)). Qed.

Lemma shiftr_12 x : Z.shiftr x 12 = x / 4096.
Proof. exact (Z.shiftr_div_pow2 x 12 ltac:(lia)). Qed.

Lemma shiftr_18 x : Z.shiftr x 18 = x / 262144.
Proof. exact (Z.shiftr_div_pow2 x 18 ltac:(lia)). Qed.

Lemma shiftl_6 x : Z.shiftl x 6 = x * 64.
Proof. exact (Z.shiftl_mul_pow2 x 6 ltac:(lia)). Qed.

Lemma shiftl_12 x : Z.shiftl x 12 = x * 4096.
Proof. exact (Z.shiftl_mul_pow2 x 12 ltac:(lia)). Qed.

Lemma shiftl_18 x : Z.shiftl x 18 = x * 262144.
Proof. exact (Z.shiftl_mul_pow2 x 18 ltac:(lia)). Qed.

(** Turn the shifts and masks of the codecs into [/], [*] and [mod]. *)
Ltac to_arith :=
  unfold Codec.low6;
  rewrite ?land_0x3F, ?land_0x1F, ?land_0x0F, ?land_0x07,
          ?shiftr_6, ?shiftr_12, ?shiftr_18,
          ?shiftl_6, ?shiftl_12, ?shiftl_18.

(** Rewrite one [Z.lor a x], [x] below [p = 2 ^ k], into [a + x]. *)
Ltac lor_plus a x p k :=
  rewrite (lor_add a x p k) by (first [ reflexivity | lia | dlia ]).

Lemma between_spec lo hi b :
  Codec.between lo hi b = true <-> lo <= b <= hi.
Proof. unfold Codec.between. rewrite andb_true_iff. lia. Qed.

Lemma between_true lo hi b : lo <= b <= hi -> Codec.between lo hi b = true.
Proof. apply between_spec. Qed.

Lemma between_false lo hi b :
  b < lo \/ hi < b -> Codec.between lo hi b = false.
Proof.
  intros H. destruct (Codec.between lo hi b) eqn:E; [|reflexivity].
  apply between_spec in E. lia.
Qed.

(** *** The encoder, by length of the sequence *)

Lemma utf8_char_1 c : 0 <= c < 0x80 -> Codec.utf8_char c = Ok [c].
Proof.
  intros H. unfold Codec.utf8_char.
  destruct (Z.ltb_spec c 0); [lia|].
  destruct (Z.ltb_spec c 0x80); [reflexivity|lia].
Qed.

Lemma utf8_char_2 c :
  0x80 <= c < 0x800 ->
  Codec.utf8_char c = Ok [192 + c / 64; 128 + c mod 64].
Proof.
  intros H. unfold Codec.utf8_char.
  destruct (Z.ltb_spec c 0); [lia|].
  destruct (Z.ltb_spec c 0x80); [lia|].
  destruct (Z.ltb_spec c 0x800); [|lia].
  to_arith.
  lor_plus 192 (c / 64) 32 5.
  lor_plus 128 (c mod 64) 64 6.
  reflexivity.
Qed.

Lemma utf8_char_3 c :
  0x800 <= c < 0x10000 -> ~ (0xD800 <= c <= 0xDFFF) ->
  Codec.utf8_char c =
  Ok [224 + c / 4096; 128 + (c / 64) mod 64; 128 + c mod 64].
Proof.
  intros H Hs. unfold Codec.utf8_char.
  destruct (Z.ltb_spec c 0); [lia|].
  destruct (Z.ltb_spec c 0x80); [lia|].
  destruct (Z.ltb_spec c 0x800); [lia|].
  destruct (Z.leb_spec 0xD800 c), (Z.leb_spec c 0xDFFF); cbn [andb]; try lia;
    (destruct (Z.ltb_spec c 0x10000); [|lia]);
    to_arith;
    lor_plus 224 (c / 4096) 16 4;
    lor_plus 128 ((c / 64) mod 64) 64 6;
    lor_plus 128 (c mod 64) 64 6;
    reflexivity.
Qed.

Lemma utf8_char_4 c :
  0x10000 <= c <= 0x10FFFF ->
  Codec.utf8_char c =
  Ok [240 + c / 262144; 128 + (c / 4096) mod 64;
      128 + (c / 64) mod 64; 128 + c mod 64].
Proof.
  intros H. unfold Codec.utf8_char.
  destruct (Z.ltb_spec c 0); [lia|].
  destruct (Z.ltb_spec c 0x80); [lia|].
  destruct (Z.ltb_spec c 0x800); [lia|].
  destruct (Z.leb_spec 0xD800 c), (Z.leb_spec c 0xDFFF); cbn [andb]; try lia;
    (destruct (Z.ltb_spec c 0x10000); [lia|]);
    (destruct (Z.leb_spec c 0x10FFFF); [|lia]);
    to_arith;
    lor_plus 240 (c / 262144) 8 3;
    lor_plus 128 ((c / 4096) mod 64) 64 6;
    lor_plus 128 ((c / 64) mod 64) 64 6;
    lor_plus 128 (c mod 64) 64 6;
    reflexivity.
Qed.

Lemma utf8_char_ok c bs : Codec.utf8_char c = Ok bs -> scalar c.
Proof.
  unfold Codec.utf8_char, scalar.
  destruct (Z.ltb_spec c 0); [discriminate|].
  destruct (Z.ltb_spec c 0x80); [lia|].
  destruct (Z.ltb_spec c 0x800); [lia|].
  destruct (Z.leb_spec 0xD800 c), (Z.leb_spec c 0xDFFF); cbn [andb];
    try discriminate;
    (destruct (Z.ltb_spec c 0x10000); [lia|]);
    (destruct (Z.leb_spec c 0x10FFFF); [lia|discriminate]).
Qed.

Lemma utf8_char_scalar c : scalar c -> exists bs, Codec.utf8_char c = Ok bs.
Proof.
  intros [Hr Hs].
  destruct (Z_lt_le_dec c 0x80); [eexists; apply utf8_char_1; lia|].
  destruct (Z_lt_le_dec c 0x800); [eexists; apply utf8_char_2; lia|].
  destruct (Z_lt_le_dec c 0x10000); [eexists; apply utf8_char_3; lia|].
  eexists; apply utf8_char_4; lia.
Qed.

(** *** The decoder, by length of the sequence *)

Lemma decode_utf8_1 b0 r :
  0 <= b0 <= 0x7F ->
  Codec.decode_utf8 (b0 :: r) = (s <- Codec.decode_utf8 r ;; Ok (b0 :: s)).
Proof.
  intros H. cbn [Codec.decode_utf8].
  rewrite (between_true 0 127 b0) by lia. reflexivity.
Qed.

Lemma decode_utf8_2 b0 b1 r :
  0xC2 <= b0 <= 0xDF -> 0x80 <= b1 <= 0xBF ->
  Codec.decode_utf8 (b0 :: b1 :: r) =
  (s <- Codec.decode_utf8 r ;; Ok ((b0 - 192) * 64 + (b1 - 128) :: s)).
Proof.
  intros H0 H1. cbn [Codec.decode_utf8].
  rewrite (between_false 0 127 b0) by lia.
  rewrite (between_true 194 223 b0) by lia.
  rewrite (between_true 128 191 b1) by lia.
  assert (E : Z.lor (Z.shiftl (Z.land b0 31) 6) (Codec.low6 b1)
              = (b0 - 192) * 64 + (b1 - 128)).
  { to_arith. lor_plus (b0 mod 32 * 64) (b1 mod 64) 64 6. dlia. }
  rewrite E. reflexivity.
Qed.

Lemma decode_utf8_3 b0 b1 b2 r :
  0xE0 <= b0 <= 0xEF ->
  (if b0 =? 0xE0 then 0xA0 else 0x80) <= b1
    <= (if b0 =? 0xED then 0x9F else 0xBF) ->
  0x80 <= b2 <= 0xBF ->
  Codec.decode_utf8 (b0 :: b1 :: b2 :: r) =
  (s <- Codec.decode_utf8 r ;;
   Ok ((b0 - 224) * 4096 + (b1 - 128) * 64 + (b2 - 128) :: s)).
Proof.
  intros H0 H1 H2. cbn [Codec.decode_utf8].
  rewrite (between_false 0 127 b0) by lia.
  rewrite (between_false 194 223 b0) by lia.
  rewrite (between_true 224 239 b0) by lia.
  rewrite (between_true _ _ b1) by exact H1.
  rewrite (between_true 128 191 b2) by lia.
  cbn [andb].
  assert (B1 : 0x80 <= b1 <= 0xBF).
  { destruct (b0 =? 224), (b0 =? 237); lia. }
  assert (E : Z.lor (Z.lor (Z.shiftl (Z.land b0 15) 12)
                           (Z.shiftl (Codec.low6 b1) 6)) (Codec.low6 b2)
              = (b0 - 224) * 4096 + (b1 - 128) * 64 + (b2 - 128)).
  { to_arith.
    lor_plus (b0 mod 16 * 4096) (b1 mod 64 * 64) 4096 12.
    lor_plus (b0 mod 16 * 4096 + b1 mod 64 * 64) (b2 mod 64) 64 6.
    dlia. }
  rewrite E. reflexivity.
Qed.

Lemma decode_utf8_4 b0 b1 b2 b3 r :
  0xF0 <= b0 <= 0xF4 ->
  (if b0 =? 0xF0 then 0x90 else 0x80) <= b1
    <= (if b0 =? 0xF4 then 0x8F else 0xBF) ->
  0x80 <= b2 <= 0xBF ->
  0x80 <= b3 <= 0xBF ->
  Codec.decode_utf8 (b0 :: b1 :: b2 :: b3 :: r) =
  (s <- Codec.decode_utf8 r ;;
   Ok ((b0 - 240) * 262144 + (b1 - 128) * 4096 + (b2 - 128) * 64
       + (b3 - 128) :: s)).
Proof.
  intros H0 H1 H2 H3. cbn [Codec.decode_utf8].
  rewrite (between_false 0 127 b0) by lia.
  rewrite (between_false 194 223 b0) by lia.
  rewrite (between_false 224 239 b0) by lia.
  rewrite (between_true 240 244 b0) by lia.
  rewrite (between_true _ _ b1) by exact H1.
  rewrite (between_true 128 191 b2) by lia.
  rewrite (between_true 128 191 b3) by lia.
  cbn [andb].
  assert (B1 : 0x80 <= b1 <= 0xBF).
  { destruct (b0 =? 240), (b0 =? 244); lia. }
  assert (E : Z.lor (Z.lor (Z.lor (Z.shiftl (Z.land b0 7) 18)
                                  (Z.shiftl (Codec.low6 b1) 12))
                           (Z.shiftl (Codec.low6 b2) 6)) (Codec.low6 b3)
              = (b0 - 240) * 262144 + (b1 - 128) * 4096 + (b2 - 128) * 64
                + (b3 - 128)).
  { to_arith.
    lor_plus (b0 mod 8 * 262144) (b1 mod 64 * 4096) 262144 18.
    lor_plus (b0 mod 8 * 262144 + b1 mod 64 * 4096) (b2 mod 64 * 64) 4096 12.
    lor_plus (b0 mod 8 * 262144 + b1 mod 64 * 4096 + b2 mod 64 * 64)
             (b3 mod 64) 64 6.
    dlia. }
  rewrite E. reflexivity.
Qed.

(** *** Decoding what the encoder wrote *)

Lemma Ok_inj {A : Type} (a b : A) : Ok a = Ok b -> a = b.
Proof. congruence. Qed.

Lemma decode_utf8_char c bs r :
  Codec.utf8_char c = Ok bs ->
  Codec.decode_utf8 (bs ++ r) = (s <- Codec.decode_utf8 r ;; Ok (c :: s)).
Proof.
  intros He. destruct (utf8_char_ok c bs He) as [Hr Hs].
  destruct (Z_lt_le_dec c 0x80) as [H1 | H1].
  { rewrite utf8_char_1 in He by lia. apply Ok_inj in He; subst bs.
    apply decode_utf8_1. lia. }
  destruct (Z_lt_le_dec c 0x800) as [H2 | H2].
  { rewrite utf8_char_2 in He by lia. apply Ok_inj in He; subst bs.
    cbn [app]. rewrite decode_utf8_2 by dlia.
    replace ((192 + c / 64 - 192) * 64 + (128 + c mod 64 - 128)) with c
      by dlia.
    reflexivity. }
  destruct (Z_lt_le_dec c 0x10000) as [H3 | H3].
  { rewrite utf8_char_3 in He by lia. apply Ok_inj in He; subst bs.
    cbn [app]. rewrite decode_utf8_3.
    - replace ((224 + c / 4096 - 224) * 4096
               + (128 + (c / 64) mod 64 - 128) * 64
               + (128 + c mod 64 - 128)) with c by dlia.
      reflexivity.
    - dlia.
    - destruct (Z.eqb_spec (224 + c / 4096) 224),
               (Z.eqb_spec (224 + c / 4096) 237); dlia.
    - dlia. }
  rewrite utf8_char_4 in He by lia. apply Ok_inj in He; subst bs.
  cbn [app]. rewrite decode_utf8_4.
  - replace ((240 + c / 262144 - 240) * 262144
             + (128 + (c / 4096) mod 64 - 128) * 4096
             + (128 + (c / 64) mod 64 - 128) * 64
             + (128 + c mod 64 - 128)) with c by dlia.
    reflexivity.
  - dlia.
  - destruct (Z.eqb_spec (240 + c / 262144) 240),
             (Z.eqb_spec (240 + c / 262144) 244); dlia.
  - dlia.
  - dlia.
Qed.

Lemma decode_encode_utf8 s bs :
  Codec.encode_utf8 s = Ok bs -> Codec.decode_utf8 bs = Ok s.
Proof.
  revert bs. induction s as [|c s IH]; intros bs H; cbn in H.
  - injection H as <-. reflexivity.
  - destruct (Codec.utf8_char c) as [cb|] eqn:Ec; [|discriminate].
    destruct (Codec.encode_utf8 s) as [rest|] eqn:Es; [|discriminate].
    cbn in H. injection H as <-.
    rewrite (decode_utf8_char c cb rest Ec), (IH rest eq_refl).
    reflexivity.
Qed.

Lemma utf8_char_bytes c bs : Codec.utf8_char c = Ok bs -> Forall byte bs.
Proof.
  intros He. destruct (utf8_char_ok c bs He) as [Hr Hs]. unfold byte.
  destruct (Z_lt_le_dec c 0x80) as [H1 | H1].
  { rewrite utf8_char_1 in He by lia. apply Ok_inj in He; subst bs.
    repeat constructor; lia. }
  destruct (Z_lt_le_dec c 0x800) as [H2 | H2].
  { rewrite utf8_char_2 in He by lia. apply Ok_inj in He; subst bs.
    repeat constructor; dlia. }
  destruct (Z_lt_le_dec c 0x10000) as [H3 | H3].
  { rewrite utf8_char_3 in He by lia. apply Ok_inj in He; subst bs.
    repeat constructor; dlia. }
  rewrite utf8_char_4 in He by lia. apply Ok_inj in He; subst bs.
  repeat constructor; dlia.
Qed.

Lemma encode_utf8_bytes s bs : Codec.encode_utf8 s = Ok bs -> Forall byte bs.
Proof.
  revert bs. induction s as [|c s IH]; intros bs H; cbn in H.
  - injection H as <-. constructor.
  - destruct (Codec.utf8_char c) as [cb|] eqn:Ec; [|discriminate].
    destruct (Codec.encode_utf8 s) as [rest|] eqn:Es; [|discriminate].
    cbn in H. injection H as <-.
    apply Forall_app. split; [eapply utf8_char_bytes; eassumption | auto].
Qed.

Lemma encode_utf8_scalar s :
  Forall scalar s -> exists bs, Codec.encode_utf8 s = Ok bs.
Proof.
  induction 1 as [|c s Hc _ [rest IH]]; cbn.
  - eexists; reflexivity.
  - destruct (utf8_char_scalar c Hc) as [cb ->]. rewrite IH. cbn.
    eexists; reflexivity.
Qed.

Lemma encode_utf8_ok_scalar s bs :
  Codec.encode_utf8 s = Ok bs -> Forall scalar s.
Proof.
  revert bs. induction s as [|c s IH]; intros bs H; cbn in H.
  - constructor.
  - destruct (Codec.utf8_char c) as [cb|] eqn:Ec; [|discriminate].
    destruct (Codec.encode_utf8 s) as [rest|] eqn:Es; [|discriminate].
    constructor; [eapply utf8_char_ok; eassumption | eapply IH; reflexivity].
Qed.

Lemma encode_latin1_bytes bs : Forall byte bs -> Codec.encode_latin1 bs = Ok bs.
Proof.
  induction 1 as [|b bs Hb _ IH]; cbn; [reflexivity|].
  unfold byte in Hb.
  destruct (Z.leb_spec 0 b), (Z.ltb_spec b 256); try lia.
  cbn. rewrite IH. reflexivity.
Qed.

(** ** Strings and dicts *)

Lemma str_eqb_refl a : str_eqb a a = true.
Proof. induction a as [|x a IH]; cbn; [reflexivity|]. now rewrite Z.eqb_refl. Qed.

Lemma str_eqb_eq a b : str_eqb a b = true <-> a = b.
Proof.
  split; [|intros ->; apply str_eqb_refl].
  revert b. induction a as [|x a IH]; intros [|y b]; cbn; try discriminate.
  - reflexivity.
  - rewrite andb_true_iff, Z.eqb_eq. intros [-> H]. f_equal. auto.
Qed.

Lemma lookup_cons_ne k k' v d :
  str_eqb k' k = false -> lookup k ((k', v) :: d) = lookup k d.
Proof. intros H. cbn. now rewrite H. Qed.

(** ** The pattern *)

Lemma strip_prefix_app p r : Regex.strip_prefix p (p ++ r) = Some r.
Proof.
  induction p as [|x p IH]; cbn; [now destruct r|].
  now rewrite Z.eqb_refl.
Qed.

Lemma strip_prefix_inv p s r : Regex.strip_prefix p s = Some r -> s = p ++ r.
Proof.
  revert s. induction p as [|x p IH]; intros s H.
  - destruct s; cbn in H; injection H as <-; reflexivity.
  - destruct s as [|y s]; cbn in H; [discriminate|].
    destruct (Z.eqb_spec x y); [|discriminate].
    subst y. cbn. f_equal. auto.
Qed.

Lemma forallb_dot s : forallb Regex.dot s = true <-> Forall (fun c => c <> 10) s.
Proof.
  rewrite forallb_forall, Forall_forall. unfold Regex.dot.
  split; intros H c Hc; specialize (H c Hc).
  - destruct (Z.eqb_spec c 10); [discriminate | assumption].
  - destruct (Z.eqb_spec c 10); [contradiction | reflexivity].
Qed.

Lemma dot_plus_end_spec s :
  Regex.dot_plus_end s = true <-> s <> [] /\ Forall (fun c => c <> 10) s.
Proof.
  destruct s as [|c s].
  - cbn. split; [discriminate | intros [H _]; congruence].
  - unfold Regex.dot_plus_end. rewrite forallb_dot.
    split; [intros H; split; [discriminate | exact H] | intros [_ H]; exact H].
Qed.

Lemma match_here_Some s g :
  Regex.match_here s = Some g <-> g = s /\ phrase_match s.
Proof.
  unfold Regex.match_here, phrase_match. split.
  - destruct (Regex.strip_prefix Regex.MATCH_PHRASE s) as [rest|] eqn:E;
      [|discriminate].
    destruct (Regex.dot_plus_end rest) eqn:D; [|discriminate].
    intros [= <-]. split; [reflexivity|].
    exists rest. apply strip_prefix_inv in E. apply dot_plus_end_spec in D.
    tauto.
  - intros [-> (rest & -> & Hne & Hnl)].
    rewrite strip_prefix_app.
    assert (D : Regex.dot_plus_end rest = true) by (apply dot_plus_end_spec; tauto).
    now rewrite D.
Qed.

Lemma match_here_None s : ~ phrase_match s -> Regex.match_here s = None.
Proof.
  intros H. destruct (Regex.match_here s) as [g|] eqn:E; [|reflexivity].
  apply match_here_Some in E. tauto.
Qed.

(** [search] skips a prefix that offers no match. *)
Lemma search_from_skip a t i :
  (forall pre suf, a = pre ++ suf -> suf <> [] -> ~ phrase_match (suf ++ t)) ->
  Regex.search_from i (a ++ t) = Regex.search_from (i + List.length a) t.
Proof.
  revert i. induction a as [|x a IH]; intros i H.
  - cbn [app List.length]. now rewrite Nat.add_0_r.
  - cbn [app Regex.search_from].
    rewrite (match_here_None (x :: a ++ t)).
    + cbn [app List.length]. rewrite IH.
      * f_equal. lia.
      * intros pre suf -> Hs. apply (H (x :: pre) suf); [reflexivity | exact Hs].
    + change (x :: a ++ t) with ((x :: a) ++ t).
      apply (H [] (x :: a)); [reflexivity | discriminate].
Qed.

Lemma search_from_here t i :
  phrase_match t -> Regex.search_from i t = Some (i, t).
Proof.
  intros H. destruct t as [|x t]; cbn [Regex.search_from];
    now rewrite (proj2 (match_here_Some _ _) (conj eq_refl H)).
Qed.

(** Whatever [search] finds starts at an offset where the pattern matches,
    and [group(0)] is the subject from that offset on. *)
Lemma search_from_sound s i start g :
  Regex.search_from i s = Some (start, g) ->
  (i <= start)%nat /\ g = skipn (start - i) s /\ phrase_match g.
Proof.
  revert i. induction s as [|x s IH]; intros i; cbn [Regex.search_from].
  - destruct (Regex.match_here []) as [g'|] eqn:E; [|discriminate].
    intros [= <- <-]. apply match_here_Some in E. destruct E as [-> E].
    rewrite Nat.sub_diag. auto.
  - destruct (Regex.match_here (x :: s)) as [g'|] eqn:E.
    + intros [= <- <-]. apply match_here_Some in E. destruct E as [-> E].
      rewrite Nat.sub_diag. auto.
    + intros H. apply IH in H. destruct H as (Hle & -> & Hm).
      split; [lia|]. split; [|exact Hm].
      replace (start - i)%nat with (S (start - S i)) by lia. reflexivity.
Qed.

Lemma slice_phrase b c :
  slice_to_last _PHRASE_OFFSET (Regex.MATCH_PHRASE ++ b ++ [c]) = b.
Proof.
  unfold slice_to_last, _PHRASE_OFFSET.
  rewrite skipn_app, Nat.sub_diag, skipn_all. cbn [app skipn].
  apply removelast_last.
Qed.

(** ** One message *)

Lemma extend_nil self : extend self [] = self.
Proof. destruct self. unfold extend. cbn. now rewrite app_nil_r. Qed.

Lemma extend_extend self a b : extend (extend self a) b = extend self (a ++ b).
Proof. unfold extend. cbn. now rewrite app_assoc. Qed.

Lemma append_result_extend self r : append_result self r = extend self [r].
Proof. reflexivity. Qed.

Ltac case_match :=
  match goal with
  | |- context [match ?x with _ => _ end] => destruct x eqn:?
  end.

(** What the loop body does with a message that passes both filters. *)
Lemma scan_message_scanned self d c :
  other_sender self d -> generic_content d c ->
  scan_message self (PDict d) =
  match Regex.search c with
  | Some (start, group0) =>
      if (0 <? start)%nat then
        foundNickname <- _fixMojibake (slice_to_last _PHRASE_OFFSET group0) ;;
        ts <- subscript (PDict d) (str "timestamp_ms") ;;
        Ok (append_result self (mkRecord ts foundNickname))
      else Ok self
  | None => Ok self
  end.
Proof.
  intros Hs [(ty & Hty & Hg) Hc].
  unfold scan_message.
  assert (Own : (if truthy (username self)
                 then sender <- subscript (PDict d) (str "sender_name") ;;
                      Ok (eq_username sender (username self))
                 else Ok false) = Ok false).
  { destruct Hs as [-> | (v & Hv & Hne)]; [reflexivity|].
    destruct (truthy (username self)); [|reflexivity].
    cbn [subscript]. rewrite Hv. cbn [bind]. now rewrite Hne. }
  rewrite Own. cbn [bind subscript key_in]. unfold contains.
  rewrite Hty, Hc. cbn [bind]. rewrite Hg. cbn [negb orb].
  reflexivity.
Qed.

(** Whenever the loop body appends, the pattern matched at an offset
    greater than 0; otherwise the finder is unchanged. *)
Lemma scan_message_inv self m self' :
  scan_message self m = Ok self' ->
  self' = self \/
  exists d c start group0 n ts,
    m = PDict d /\ generic_content d c /\
    Regex.search c = Some (start, group0) /\ (0 < start)%nat /\
    _fixMojibake (slice_to_last _PHRASE_OFFSET group0) = Ok n /\
    lookup (str "timestamp_ms") d = Some ts /\
    self' = append_result self (mkRecord ts n).
Proof.
  unfold scan_message. intros H.
  destruct (if truthy (username self)
            then sender <- subscript m (str "sender_name") ;;
                 Ok (eq_username sender (username self))
            else Ok false) as [[|]|] eqn:Own; cbn [bind] in H;
    [left; congruence | | discriminate].
  destruct m as [| | | | |l|d]; cbn [subscript bind] in H; try discriminate.
  destruct (lookup (str "type") d) as [ty|] eqn:Hty; [|discriminate].
  cbn [bind key_in] in H. unfold contains in H.
  destruct (eq_str ty (str "Generic")) eqn:Hg; cbn [negb orb] in H;
    [|left; congruence].
  destruct (lookup (str "content") d) as [content|] eqn:Hc;
    cbn [negb bind] in H; [|left; congruence].
  destruct content as [| | | |c| |]; try discriminate.
  destruct (Regex.search c) as [[start group0]|] eqn:Hr; [|left; congruence].
  destruct (Nat.ltb_spec 0 start) as [Hpos|]; [|left; congruence].
  destruct (_fixMojibake (slice_to_last _PHRASE_OFFSET group0)) as [n|] eqn:Hn;
    cbn [bind] in H; [|discriminate].
  destruct (lookup (str "timestamp_ms") d) as [ts|] eqn:Hts;
    cbn [bind] in H; [|discriminate].
  right. exists d, c, start, group0, n, ts.
  repeat split; eauto. congruence.
Qed.

(** The loop body reads nothing of the finder but its username, and only
    appends to the result. *)
Lemma scan_message_frame self m :
  scan_message self m =
  (s <- scan_message (fresh (username self)) m ;; Ok (extend self (_result s))).
Proof.
  unfold scan_message, bind. cbn [username fresh].
  repeat (case_match; try discriminate; try reflexivity);
    cbn; rewrite ?extend_nil; try reflexivity; congruence.
Qed.

(** ** The loop over the messages *)

Lemma scan_message_ok self m self' :
  scan_message self m = Ok self' ->
  self' = extend self (message_records (username self) m).
Proof.
  rewrite scan_message_frame. unfold message_records.
  destruct (scan_message (fresh (username self)) m); cbn [bind];
    congruence.
Qed.

Lemma scan_message_username self m self' :
  scan_message self m = Ok self' -> username self' = username self.
Proof. intros H. now rewrite (scan_message_ok _ _ _ H). Qed.

(** The loop stops at the first message that raises: what follows it is
    never looked at. *)
Lemma scan_messages_raise self ms1 m ms2 self1 e :
  scan_messages self ms1 = (self1, None) ->
  scan_message self1 m = Raise e ->
  scan_messages self (ms1 ++ m :: ms2) = (self1, Some e).
Proof.
  revert self. induction ms1 as [|m1 ms1 IH]; intros self H1 Hm.
  - cbn in H1. injection H1 as ->. cbn. now rewrite Hm.
  - cbn in H1 |- *. destruct (scan_message self m1) as [s|e1];
      [now apply IH | discriminate].
Qed.

Lemma scan_messages_app self ms1 ms2 self1 :
  scan_messages self ms1 = (self1, None) ->
  scan_messages self (ms1 ++ ms2) = scan_messages self1 ms2.
Proof.
  revert self. induction ms1 as [|m1 ms1 IH]; intros self H1.
  - cbn in H1. injection H1 as ->. reflexivity.
  - cbn in H1 |- *. destruct (scan_message self m1) as [s|e1];
      [now apply IH | discriminate].
Qed.

(** The loop appends, message by message and in their order, what each
    message it got through yields; [done] is the part of [ms] it got
    through. *)
Lemma scan_messages_order self ms :
  exists done rest,
    ms = done ++ rest /\
    fst (scan_messages self ms)
    = extend self (flat_map (message_records (username self)) done) /\
    (snd (scan_messages self ms) = None -> rest = []) /\
    (forall e, snd (scan_messages self ms) = Some e ->
       exists m rest', rest = m :: rest' /\
         scan_message (fresh (username self)) m = Raise e).
Proof.
  revert self. induction ms as [|m ms IH]; intros self.
  - exists [], []. cbn. rewrite extend_nil.
    repeat split; auto; discriminate.
  - cbn [scan_messages]. destruct (scan_message self m) as [s|e] eqn:Hm.
    + destruct (IH s) as (done & rest & -> & Hr & Hn & He).
      pose proof (scan_message_ok _ _ _ Hm) as Hs.
      rewrite (scan_message_username _ _ _ Hm) in Hr, He.
      exists (m :: done), rest. split; [reflexivity|].
      split; [|split; assumption].
      rewrite Hr, Hs, extend_extend. reflexivity.
    + exists [], (m :: ms). cbn. rewrite extend_nil.
      repeat split; auto; try discriminate.
      intros e' [= <-]. exists m, ms. split; [reflexivity|].
      rewrite scan_message_frame in Hm.
      destruct (scan_message (fresh (username self)) m); [discriminate|].
      cbn in Hm. congruence.
Qed.

Lemma scan_messages_extend self ms :
  exists rs, fst (scan_messages self ms) = extend self rs.
Proof.
  destruct (scan_messages_order self ms) as (done & rest & _ & H & _).
  eexists; exact H.
Qed.

Lemma scan_messages_frame self ms :
  scan_messages self ms =
  (extend self (_result (fst (scan_messages (fresh (username self)) ms))),
   snd (scan_messages (fresh (username self)) ms)).
Proof.
  revert self. induction ms as [|m ms IH]; intros self.
  - cbn. now rewrite extend_nil.
  - cbn [scan_messages]. rewrite (scan_message_frame self m).
    destruct (scan_message (fresh (username self)) m) as [s|e] eqn:Hm;
      cbn [bind].
    + rewrite IH. rewrite (IH s).
      pose proof (scan_message_username _ _ _ Hm) as Hu. cbn in Hu.
      rewrite Hu. cbn [username extend fst snd _result].
      rewrite extend_extend. reflexivity.
    + cbn. now rewrite extend_nil.
Qed.

(** ** One document, one file *)

Lemma scan_document_frame self jdata :
  scan_document self jdata =
  (extend self (_result (fst (scan_document (fresh (username self)) jdata))),
   snd (scan_document (fresh (username self)) jdata)).
Proof.
  unfold scan_document, not_participant. cbn [username fresh].
  unfold _isParticipant. cbn [username].
  destruct (if truthy (username self) then _ else _) as [[|]|];
    cbn [fst snd _result fresh]; rewrite ?extend_nil; try reflexivity.
  destruct (ms <- subscript jdata (str "messages") ;; iter ms) as [ms|e].
  - apply scan_messages_frame.
  - cbn [fst snd _result fresh]. now rewrite extend_nil.
Qed.

Lemma findInFile_result fs self f :
  _result (_findInFile fs self f)
  = _result self ++ file_records fs (username self) f.
Proof.
  unfold file_records, _findInFile.
  destruct (load fs f) as [jdata|]; [|cbn; now rewrite app_nil_r].
  rewrite (scan_document_frame self jdata).
  destruct (scan_document (fresh (username self)) jdata) as [s [e|]];
    reflexivity.
Qed.

Lemma findInFile_username fs self f :
  username (_findInFile fs self f) = username self.
Proof.
  unfold _findInFile.
  destruct (load fs f) as [jdata|]; [|reflexivity].
  rewrite (scan_document_frame self jdata).
  destruct (scan_document (fresh (username self)) jdata) as [s [e|]];
    reflexivity.
Qed.

Lemma findInFiles_loop_result fs self files :
  _result (findInFiles_loop fs self files)
  = _result self ++
    flat_map (fun f => if isfile fs f
                       then file_records fs (username self) f else [])
             files.
Proof.
  revert self. induction files as [|f files IH]; intros self; cbn.
  - now rewrite app_nil_r.
  - destruct (isfile fs f); cbn [negb]; rewrite IH.
    + rewrite findInFile_result, findInFile_username. now rewrite app_assoc.
    + reflexivity.
Qed.

Lemma fold_findInFile_result fs self files :
  _result (fold_left (fun self f => _findInFile fs self f) files self)
  = _result self ++ flat_map (file_records fs (username self)) files.
Proof.
  revert self. induction files as [|f files IH]; intros self; cbn.
  - now rewrite app_nil_r.
  - rewrite IH, findInFile_result, findInFile_username. now rewrite app_assoc.
Qed.

(** ** Mojibake repair *)

(** [_unfixMojibake] is defined exactly on the strings of Unicode scalar
    values: those that have a UTF-8 encoding. *)
Lemma unfixMojibake_defined s :
  (exists t, _unfixMojibake s = Ok t) <-> Forall scalar s.
Proof.
  unfold _unfixMojibake. split.
  - intros [t H]. destruct (Codec.encode_utf8 s) as [bs|] eqn:E;
      [|discriminate]. eapply encode_utf8_ok_scalar; eassumption.
  - intros H. destruct (encode_utf8_scalar s H) as [bs ->].
    eexists; reflexivity.
Qed.

(** C4.  Round trip on the valid domain: for every string [s] that has a
    UTF-8 encoding (every code point a Unicode scalar value; the encoded
    bytes then all are Latin-1 code points), [_unfixMojibake s] is defined
    and [_fixMojibake] maps it back to [s]. *)
Theorem fixMojibake_unfixMojibake (s : pystr) :
  Forall scalar s ->
  exists t, _unfixMojibake s = Ok t /\ _fixMojibake t = Ok s.
Proof.
  intros H. destruct (encode_utf8_scalar s H) as [bs E].
  exists bs. unfold _unfixMojibake, _fixMojibake, Codec.decode_latin1.
  rewrite E. cbn [bind]. split; [reflexivity|].
  rewrite (encode_latin1_bytes bs (encode_utf8_bytes s bs E)). cbn [bind].
  exact (decode_encode_utf8 s bs E).
Qed.

Lemma fixMojibake_unfixMojibake_witness :
  Forall scalar [233; 8364; 128512] /\
  exists t, _unfixMojibake [233; 8364; 128512] = Ok t /\
            _fixMojibake t = Ok [233; 8364; 128512].
Proof.
  assert (H : Forall scalar [233; 8364; 128512])
    by (repeat constructor; unfold scalar; lia).
  split; [exact H | exact (fixMojibake_unfixMojibake _ H)].
Defined.

(** ** Extraction of a nickname *)

Lemma message_fields_generic sender ts content :
  generic_content (message_fields sender ts content) content.
Proof.
  split; [exists (PStr (str "Generic")); split; reflexivity | reflexivity].
Qed.

Lemma phrase_match_head s : phrase_match s -> exists r, s = 32 :: r.
Proof. intros (rest & -> & _). eexists. reflexivity. Qed.

(** A prefix without a space offers the pattern no place to match. *)
Lemma no_space_no_match a t :
  Forall (fun c => c <> 32) a ->
  forall pre suf, a = pre ++ suf -> suf <> [] -> ~ phrase_match (suf ++ t).
Proof.
  intros Ha pre suf -> Hs Hm. apply Forall_app in Ha. destruct Ha as [_ Ha].
  destruct suf as [|c suf]; [congruence|].
  apply phrase_match_head in Hm. destruct Hm as [r Hr].
  cbn in Hr. injection Hr as -> _. inversion Ha; congruence.
Qed.

(** C2 (as amended).  A message that passes the sender and type filters,
    carries a [timestamp_ms], and whose content is [A], the phrase, [B]
    and a final character, where [A] is not empty, [B] holds no newline,
    the pattern matches at no offset inside [A], and [_fixMojibake B] is
    defined with value [n]: the loop body appends exactly one record, with
    nickname [n] and the timestamp of the message. *)
Theorem scan_message_appends_nickname
    (self : finder) (d : list (pystr * pyval)) (A B n : pystr) (ts : pyval) :
  other_sender self d ->
  generic_content d (A ++ Regex.MATCH_PHRASE ++ B ++ str ".") ->
  A <> [] ->
  Forall (fun c => c <> 10) B ->
  (forall pre suf, A = pre ++ suf -> suf <> [] ->
     ~ phrase_match (suf ++ Regex.MATCH_PHRASE ++ B ++ str ".")) ->
  _fixMojibake B = Ok n ->
  lookup (str "timestamp_ms") d = Some ts ->
  scan_message self (PDict d) = Ok (append_result self (mkRecord ts n)) /\
  _result (append_result self (mkRecord ts n))
  = _result self ++ [mkRecord ts n].
Proof.
  intros Hs Hg HA HB Hfirst Hn Hts. split; [|reflexivity].
  rewrite (scan_message_scanned self d _ Hs Hg).
  unfold Regex.search. rewrite (search_from_skip A _ 0%nat Hfirst).
  rewrite search_from_here.
  - destruct A as [|a A]; [congruence|]. cbn [List.length Nat.add Nat.ltb Nat.leb].
    change (str ".") with [46]. rewrite slice_phrase, Hn.
    cbn [bind subscript]. now rewrite Hts.
  - exists (B ++ str "."). split; [reflexivity|]. split.
    + destruct B; discriminate.
    + apply Forall_app. split; [exact HB|]. repeat constructor. discriminate.
Qed.

Lemma scan_message_appends_nickname_witness :
  scan_message __init__
    (PDict (message_fields (str "Sam") 5 (str "Sam set your nickname to Bob.")))
  = Ok (append_result __init__ (mkRecord (PInt 5) (str "Bob"))) /\
  _result (append_result __init__ (mkRecord (PInt 5) (str "Bob")))
  = _result __init__ ++ [mkRecord (PInt 5) (str "Bob")].
Proof.
  apply (scan_message_appends_nickname __init__
           (message_fields (str "Sam") 5 (str "Sam set your nickname to Bob."))
           (str "Sam") (str "Bob") (str "Bob") (PInt 5)).
  - left. reflexivity.
  - apply message_fields_generic.
  - discriminate.
  - repeat constructor; discriminate.
  - apply no_space_no_match. repeat constructor; discriminate.
  - reflexivity.
  - reflexivity.
Defined.

(** C2 as the claim states it fails.  The message passes both filters and
    its content is ["Sam"], the phrase, a nickname and a full stop, yet
    nothing is appended: the newline inside the nickname keeps [.+\Z] from
    reaching the end of the content. *)
Lemma scan_message_nickname_claim_fails :
  other_sender __init__ two_line_message /\
  generic_content two_line_message
    (str "Sam" ++ Regex.MATCH_PHRASE ++ two_line_nickname ++ str ".") /\
  _fixMojibake two_line_nickname = Ok two_line_nickname /\
  lookup (str "timestamp_ms") two_line_message = Some (PInt 5) /\
  scan_message __init__ (PDict two_line_message) = Ok __init__ /\
  scan_message __init__ (PDict two_line_message)
  <> Ok (append_result __init__ (mkRecord (PInt 5) two_line_nickname)).
Proof.
  split; [left; reflexivity|].
  split; [apply message_fields_generic|].
  split; [reflexivity|].
  split; [reflexivity|].
  split; [reflexivity|].
  assert (E : scan_message __init__ (PDict two_line_message) = Ok __init__)
    by reflexivity.
  rewrite E. discriminate.
Qed.

(** Two more inputs outside the amended claim.  When the phrase occurs
    twice the leftmost match wins, and the nickname is everything after
    the first occurrence. *)
Lemma scan_message_phrase_twice :
  scan_message __init__
    (PDict (message_fields (str "Sam") 5
       (str "X set your nickname to Y set your nickname to Bob.")))
  = Ok (append_result __init__
          (mkRecord (PInt 5) (str "Y set your nickname to Bob"))).
Proof. reflexivity. Qed.

(** A nickname that is not mojibake (here U+00E9 alone) makes the repair
    raise. *)
Lemma scan_message_decode_failure :
  scan_message __init__
    (PDict (message_fields (str "Sam") 5
       (str "Sam set your nickname to " ++ 233 :: str ".")))
  = Raise UnicodeDecodeError.
Proof. reflexivity. Qed.

(** C5.  For a message that passes both filters, a record is produced only
    when the pattern matches at an offset greater than 0.  The content
    ["set your nickname to Bob."] yields no record, nor does
    [" set your nickname to Bob."], which the pattern matches at offset 0:
    the finder, its result included, is unchanged.  The content
    ["Sam set your nickname to Bob."] yields a record: the result grows by
    exactly the record of ["Bob"] with the timestamp of the message. *)
Theorem scan_message_match_offset
    (self : finder) (d : list (pystr * pyval)) (c : pystr) :
  other_sender self d ->
  generic_content d c ->
  (forall self', scan_message self (PDict d) = Ok self' ->
     _result self' <> _result self ->
     exists start group0,
       Regex.search c = Some (start, group0) /\ (0 < start)%nat) /\
  (c = str "set your nickname to Bob." ->
     scan_message self (PDict d) = Ok self) /\
  (c = str " set your nickname to Bob." ->
     Regex.search c = Some (0%nat, c) /\
     scan_message self (PDict d) = Ok self) /\
  (c = str "Sam set your nickname to Bob." ->
     forall ts, lookup (str "timestamp_ms") d = Some ts ->
     scan_message self (PDict d)
     = Ok (append_result self (mkRecord ts (str "Bob"))) /\
     _result (append_result self (mkRecord ts (str "Bob")))
     = _result self ++ [mkRecord ts (str "Bob")]).
Proof.
  intros Hs Hg. split; [|split; [|split]].
  - intros self' H Hne.
    destruct (scan_message_inv _ _ _ H)
      as [-> | (d0 & c0 & start & g & n & ts & Hd & Hg0 & Hr & Hpos & _)];
      [congruence|].
    injection Hd as <-. destruct Hg as [_ Hc], Hg0 as [_ Hc0].
    rewrite Hc in Hc0. injection Hc0 as <-. eauto.
  - intros ->. rewrite (scan_message_scanned self d _ Hs Hg).
    assert (E : Regex.search (str "set your nickname to Bob.") = None)
      by reflexivity.
    now rewrite E.
  - intros ->.
    assert (E : Regex.search (str " set your nickname to Bob.")
                = Some (0%nat, str " set your nickname to Bob."))
      by reflexivity.
    split; [exact E|].
    rewrite (scan_message_scanned self d _ Hs Hg), E. reflexivity.
  - intros -> ts Hts. split; [|reflexivity].
    rewrite (scan_message_scanned self d _ Hs Hg).
    assert (E : Regex.search (str "Sam set your nickname to Bob.")
                = Some (3%nat, str " set your nickname to Bob."))
      by reflexivity.
    rewrite E. cbn [Nat.ltb Nat.leb].
    assert (F : _fixMojibake
                  (slice_to_last _PHRASE_OFFSET (str " set your nickname to Bob."))
                = Ok (str "Bob")) by reflexivity.
    rewrite F. cbn [bind subscript]. now rewrite Hts.
Qed.

Lemma scan_message_match_offset_witness :
  scan_message __init__
    (PDict (message_fields (str "Sam") 5 (str "Sam set your nickname to Bob.")))
  = Ok (append_result __init__ (mkRecord (PInt 5) (str "Bob"))) /\
  _result (append_result __init__ (mkRecord (PInt 5) (str "Bob")))
  = [mkRecord (PInt 5) (str "Bob")].
Proof.
  refine (proj2 (proj2 (proj2
    (scan_message_match_offset __init__
       (message_fields (str "Sam") 5 (str "Sam set your nickname to Bob."))
       (str "Sam set your nickname to Bob.") _ _))) eq_refl (PInt 5) eq_refl).
  - left. reflexivity.
  - apply message_fields_generic.
Defined.

(** ** The sender filter *)

Lemma setUsername_Alice self :
  setUsername self (Some (str "Alice"))
  = (mkFinder (Some (str "Alice")) (_result self) (crashed self)
              (trace self ++ [INFO_skipping (str "Alice")]), None).
Proof. reflexivity. Qed.

(** A message of the configured user is left alone. *)
Lemma scan_message_own self d v :
  truthy (username self) = true ->
  lookup (str "sender_name") d = Some v ->
  eq_username v (username self) = true ->
  scan_message self (PDict d) = Ok self.
Proof.
  intros Ht Hv He. unfold scan_message. rewrite Ht.
  cbn [subscript]. rewrite Hv. cbn [bind]. now rewrite He.
Qed.

(** A message the loop body always skips can be dropped from the list. *)
Lemma scan_messages_skip u m :
  (forall s, username s = u -> scan_message s m = Ok s) ->
  forall ms1 ms2 self, username self = u ->
    scan_messages self (ms1 ++ m :: ms2) = scan_messages self (ms1 ++ ms2).
Proof.
  intros Hm ms1 ms2. induction ms1 as [|m1 ms1 IH]; intros self Hu.
  - cbn. now rewrite (Hm self Hu).
  - cbn. destruct (scan_message self m1) as [s|e] eqn:E; [|reflexivity].
    apply IH. now rewrite (scan_message_username _ _ _ E).
Qed.

(** C6.  With the username ["Alice"] configured, a message whose
    [sender_name] is ["Alice"] is skipped by the loop body whatever else it
    holds: the finder is unchanged, and a list of messages gives the same
    result with the message as without it. *)
Theorem scan_message_skips_own
    (self0 : finder) (d : list (pystr * pyval)) :
  lookup (str "sender_name") d = Some (PStr (str "Alice")) ->
  username (fst (setUsername self0 (Some (str "Alice")))) = Some (str "Alice") /\
  scan_message (fst (setUsername self0 (Some (str "Alice")))) (PDict d)
  = Ok (fst (setUsername self0 (Some (str "Alice")))) /\
  message_records (Some (str "Alice")) (PDict d) = [] /\
  (forall ms1 ms2,
     scan_messages (fst (setUsername self0 (Some (str "Alice"))))
                   (ms1 ++ PDict d :: ms2)
     = scan_messages (fst (setUsername self0 (Some (str "Alice"))))
                     (ms1 ++ ms2)).
Proof.
  intros Hd. rewrite setUsername_Alice. cbn [fst].
  assert (Own : forall s, username s = Some (str "Alice") ->
                          scan_message s (PDict d) = Ok s).
  { intros s Hu. apply (scan_message_own s d (PStr (str "Alice")));
      [now rewrite Hu | exact Hd | now rewrite Hu]. }
  split; [reflexivity|]. split; [now apply Own|]. split.
  - unfold message_records. now rewrite (Own (fresh (Some (str "Alice"))) eq_refl).
  - intros ms1 ms2.
    now apply (scan_messages_skip (Some (str "Alice")) (PDict d) Own).
Qed.

Lemma scan_message_skips_own_witness :
  scan_message (fst (setUsername __init__ (Some (str "Alice"))))
    (PDict (message_fields (str "Alice") 5 (str "Sam set your nickname to Bob.")))
  = Ok (fst (setUsername __init__ (Some (str "Alice")))).
Proof.
  exact (proj1 (proj2
    (scan_message_skips_own __init__
       (message_fields (str "Alice") 5 (str "Sam set your nickname to Bob."))
       eq_refl))).
Defined.

(** Without a username the loop body does not look at [sender_name]. *)
Lemma scan_message_no_username self d v :
  truthy (username self) = false ->
  scan_message self (PDict ((str "sender_name", v) :: d))
  = scan_message self (PDict d).
Proof.
  intros Ht. unfold scan_message. rewrite Ht.
  cbn [bind subscript key_in]. unfold contains.
  rewrite (lookup_cons_ne (str "type") (str "sender_name") v d eq_refl).
  rewrite (lookup_cons_ne (str "content") (str "sender_name") v d eq_refl).
  rewrite (lookup_cons_ne (str "timestamp_ms") (str "sender_name") v d eq_refl).
  reflexivity.
Qed.

(** ** Exceptions inside a file *)

Lemma findInFile_raise fs self f jdata self' e :
  load fs f = Some jdata ->
  scan_document self jdata = (self', Some e) ->
  _findInFile fs self f = print self' (Error_bad_json f).
Proof. intros Hl Hd. unfold _findInFile. now rewrite Hl, Hd. Qed.

Lemma scan_document_messages self jdata ms :
  not_participant self jdata = Ok false ->
  (ms <- subscript jdata (str "messages") ;; iter ms) = Ok ms ->
  scan_document self jdata = scan_messages self ms.
Proof. intros Hp Hm. unfold scan_document. now rewrite Hp, Hm. Qed.

Lemma scan_document_extend self jdata :
  exists rs, fst (scan_document self jdata) = extend self rs.
Proof.
  rewrite scan_document_frame. cbn [fst]. eexists; reflexivity.
Qed.

(** C3.  When the block that reads the fields of a parsed file raises, be
    it a missing key, a value of the wrong type or a decode failure of the
    mojibake repair, [_findInFile] returns normally with the per-file error
    printed: the trace grows by exactly that line.  The records appended
    before the exception remain: the result is the old result followed by
    them, and nothing else of the finder changes.  The loop over the files
    goes on with the next file.  When the exception comes from message
    [m], the finder is the one the messages before [m] left, whatever
    follows [m]. *)
Theorem findInFile_exception_abandons_file
    (fs : filesystem) (self : finder) (f : pystr) (jdata : pyval)
    (self' : finder) (e : exn) :
  load fs f = Some jdata ->
  scan_document self jdata = (self', Some e) ->
  _findInFile fs self f = print self' (Error_bad_json f) /\
  trace (_findInFile fs self f) = trace self ++ [Error_bad_json f] /\
  _result (_findInFile fs self f) = _result self' /\
  (exists kept, self' = extend self kept /\
                _result (_findInFile fs self f) = _result self ++ kept) /\
  (forall files, isfile fs f = true ->
     findInFiles_loop fs self (f :: files)
     = findInFiles_loop fs (print self' (Error_bad_json f)) files) /\
  (forall ms1 m ms2 self1 e1,
     not_participant self jdata = Ok false ->
     (ms <- subscript jdata (str "messages") ;; iter ms) = Ok (ms1 ++ m :: ms2) ->
     scan_messages self ms1 = (self1, None) ->
     scan_message self1 m = Raise e1 ->
     self' = self1 /\ e = e1 /\
     _result (_findInFile fs self f) = _result self1 /\
     (forall ms0 m0 ms0' s0 r,
        ms1 = ms0 ++ m0 :: ms0' ->
        scan_messages self ms0 = (s0, None) ->
        scan_message s0 m0 = Ok (append_result s0 r) ->
        In r (_result (_findInFile fs self f)))) /\
  (forall s d,
     other_sender s d ->
     generic_content d (str "Sam set your nickname to " ++ 233 :: str ".") ->
     scan_message s (PDict d) = Raise UnicodeDecodeError).
Proof.
  intros Hl Hd.
  pose proof (findInFile_raise fs self f jdata self' e Hl Hd) as Hf.
  destruct (scan_document_extend self jdata) as [rs Hrs].
  rewrite Hd in Hrs. cbn [fst] in Hrs.
  split; [exact Hf|]. split; [rewrite Hf, Hrs; reflexivity|].
  split; [rewrite Hf; reflexivity|].
  split; [exists rs; split; [exact Hrs | rewrite Hf, Hrs; reflexivity]|].
  split; [|split].
  - intros files Hf'. cbn [findInFiles_loop]. rewrite Hf'. cbn [negb].
    now rewrite Hf.
  - intros ms1 m ms2 self1 e1 Hp Hms H1 Hm.
    rewrite (scan_document_messages self jdata _ Hp Hms) in Hd.
    rewrite (scan_messages_raise self ms1 m ms2 self1 e1 H1 Hm) in Hd.
    injection Hd as Hs' He'. subst self1 e1.
    split; [reflexivity|]. split; [reflexivity|].
    split; [rewrite Hf; reflexivity|].
    intros ms0 m0 ms0' s0 r -> H0 Hm0.
    rewrite (scan_messages_app self ms0 (m0 :: ms0') s0 H0) in H1.
    cbn [scan_messages] in H1. rewrite Hm0 in H1.
    destruct (scan_messages_extend (append_result s0 r) ms0') as [rs' Hrs'].
    rewrite H1 in Hrs'. cbn [fst] in Hrs'. rewrite Hf, Hrs'.
    cbn [print extend append_result _result].
    apply in_or_app. left. apply in_or_app. right. left. reflexivity.
  - intros s d Hs Hg. rewrite (scan_message_scanned s d _ Hs Hg).
    reflexivity.
Qed.

Lemma findInFile_exception_abandons_file_witness :
  _findInFile (one_file (str "a.json") broken_conversation) __init__ (str "a.json")
  = print (append_result __init__ (mkRecord (PInt 5) (str "Bob")))
          (Error_bad_json (str "a.json")) /\
  trace (_findInFile (one_file (str "a.json") broken_conversation) __init__
           (str "a.json"))
  = [Error_bad_json (str "a.json")] /\
  _result (_findInFile (one_file (str "a.json") broken_conversation) __init__
             (str "a.json"))
  = [mkRecord (PInt 5) (str "Bob")].
Proof.
  pose proof
    (findInFile_exception_abandons_file
       (one_file (str "a.json") broken_conversation) __init__ (str "a.json")
       broken_conversation
       (mkFinder None [mkRecord (PInt 5) (str "Bob")] false [])
       UnicodeDecodeError eq_refl eq_refl) as H.
  exact (conj (proj1 H)
          (conj (proj1 (proj2 H)) (proj1 (proj2 (proj2 H))))).
Defined.

(** ** A missing [sender_name] *)

Lemma scan_messages_username self ms :
  username (fst (scan_messages self ms)) = username self.
Proof.
  destruct (scan_messages_extend self ms) as [rs ->]. reflexivity.
Qed.

(** C10.  For a message (an object) without a [sender_name] field: when a
    username is configured the loop body raises the missing-key error, also
    for a message that is not Generic, the loop stops there and the file is
    given up with the per-file error; when no username is configured the
    loop body does with the message what it does when the field is present,
    whatever its value. *)
Theorem scan_message_missing_sender_name
    (self : finder) (d : list (pystr * pyval)) :
  lookup (str "sender_name") d = None ->
  (truthy (username self) = true ->
     scan_message self (PDict d) = Raise (KeyError (str "sender_name")) /\
     (forall self0 ms1 ms2,
        scan_messages self0 ms1 = (self, None) ->
        scan_messages self0 (ms1 ++ PDict d :: ms2)
        = (self, Some (KeyError (str "sender_name")))) /\
     (forall fs f jdata self0 ms1 ms2,
        load fs f = Some jdata ->
        not_participant self0 jdata = Ok false ->
        subscript jdata (str "messages") = Ok (PList (ms1 ++ PDict d :: ms2)) ->
        scan_messages self0 ms1 = (self, None) ->
        _findInFile fs self0 f = print self (Error_bad_json f))) /\
  (truthy (username self) = false ->
     forall v, scan_message self (PDict ((str "sender_name", v) :: d))
               = scan_message self (PDict d)).
Proof.
  intros Hd. split.
  - intros Ht.
    assert (Hm : scan_message self (PDict d)
                 = Raise (KeyError (str "sender_name"))).
    { unfold scan_message. rewrite Ht. cbn [subscript]. now rewrite Hd. }
    split; [exact Hm|]. split.
    + intros self0 ms1 ms2 H1.
      exact (scan_messages_raise self0 ms1 (PDict d) ms2 self _ H1 Hm).
    + intros fs f jdata self0 ms1 ms2 Hl Hp Hms H1.
      apply (findInFile_raise fs self0 f jdata self
               (KeyError (str "sender_name")) Hl).
      rewrite (scan_document_messages self0 jdata (ms1 ++ PDict d :: ms2) Hp).
      * exact (scan_messages_raise self0 ms1 (PDict d) ms2 self _ H1 Hm).
      * rewrite Hms. reflexivity.
  - intros Ht v. now apply scan_message_no_username.
Qed.

Lemma scan_message_missing_sender_name_witness :
  scan_message (fst (setUsername __init__ (Some (str "Alice"))))
               (PDict [(str "type", PStr (str "Share"))])
  = Raise (KeyError (str "sender_name")).
Proof.
  exact (proj1 (proj1
    (scan_message_missing_sender_name
       (fst (setUsername __init__ (Some (str "Alice"))))
       [(str "type", PStr (str "Share"))] eq_refl) eq_refl)).
Defined.

(** ** The participant filter *)

Lemma eq_str_true v s : eq_str v s = true -> v = PStr s.
Proof.
  destruct v; cbn; try discriminate. intros H. f_equal.
  now apply str_eqb_eq.
Qed.

(** Without an entry named [u] the search for [u] does not succeed: it
    ends with [False], or raises at an entry that exposes no name. *)
Lemma isParticipant_loop_absent u ps :
  (forall p, In p ps -> subscript p (str "name") <> Ok (PStr u)) ->
  isParticipant_loop (Some u) ps = Ok false \/
  exists e, isParticipant_loop (Some u) ps = Raise e.
Proof.
  induction ps as [|p ps IH]; intros H; cbn [isParticipant_loop].
  - left. reflexivity.
  - destruct (subscript p (str "name")) as [name|e] eqn:Hn; cbn [bind].
    + cbn [eq_username]. destruct (eq_str name u) eqn:He.
      * apply eq_str_true in He. subst name.
        exfalso. apply (H p); [left; reflexivity | exact Hn].
      * apply IH. intros q Hq. apply H. right. exact Hq.
    + right. eexists. reflexivity.
Qed.

Lemma isParticipant_loop_named u ps :
  Forall (fun p => exists name, subscript p (str "name") = Ok name /\
                                eq_str name u = false) ps ->
  isParticipant_loop (Some u) ps = Ok false.
Proof.
  induction 1 as [|p ps (name & Hn & He) _ IH]; cbn [isParticipant_loop].
  - reflexivity.
  - rewrite Hn. cbn [bind eq_username]. now rewrite He.
Qed.

(** C7 (as amended).  With the username ["Alice"] configured, a parsed
    file whose participants list holds no entry named ["Alice"] contributes
    no record, whatever its messages; when moreover every entry exposes a
    name, the file is skipped without error: the finder, its trace
    included, is unchanged. *)
Theorem findInFile_not_participant
    (fs : filesystem) (self0 : finder) (f : pystr) (jdata : pyval)
    (ps : list pyval) :
  load fs f = Some jdata ->
  subscript jdata (str "participants") = Ok (PList ps) ->
  (forall p, In p ps -> subscript p (str "name") <> Ok (PStr (str "Alice"))) ->
  _result (_findInFile fs (fst (setUsername self0 (Some (str "Alice")))) f)
  = _result (fst (setUsername self0 (Some (str "Alice")))) /\
  (Forall (fun p => exists name, subscript p (str "name") = Ok name) ps ->
   _findInFile fs (fst (setUsername self0 (Some (str "Alice")))) f
   = fst (setUsername self0 (Some (str "Alice")))).
Proof.
  intros Hl Hp Hno. rewrite setUsername_Alice. cbn [fst].
  unfold _findInFile. rewrite Hl.
  unfold scan_document, not_participant.
  change (truthy (username (mkFinder (Some (str "Alice")) (_result self0)
            (crashed self0) (trace self0 ++ [INFO_skipping (str "Alice")]))))
    with true.
  cbv iota. rewrite Hp. cbn [bind]. unfold _isParticipant.
  cbn [iter bind username].
  split.
  - destruct (isParticipant_loop_absent (str "Alice") ps Hno) as [E | [e E]];
      rewrite E; reflexivity.
  - intros Hnamed.
    rewrite isParticipant_loop_named; [reflexivity|].
    apply Forall_forall. intros p Hin.
    rewrite Forall_forall in Hnamed. destruct (Hnamed p Hin) as [name Hn].
    exists name. split; [exact Hn|].
    destruct (eq_str name (str "Alice")) eqn:He; [|reflexivity].
    apply eq_str_true in He. subst name. exfalso. exact (Hno p Hin Hn).
Qed.

Lemma findInFile_not_participant_witness :
  _findInFile
    (one_file (str "a.json")
       (PDict [(str "participants", PList [PDict [(str "name", PStr (str "Sam"))]]);
               (str "messages",
                PList [PDict (message_fields (str "Sam") 5
                                (str "Sam set your nickname to Bob."))])]))
    (fst (setUsername __init__ (Some (str "Alice")))) (str "a.json")
  = fst (setUsername __init__ (Some (str "Alice"))).
Proof.
  refine (proj2
    (findInFile_not_participant
       (one_file (str "a.json")
          (PDict [(str "participants", PList [PDict [(str "name", PStr (str "Sam"))]]);
                  (str "messages",
                   PList [PDict (message_fields (str "Sam") 5
                                   (str "Sam set your nickname to Bob."))])]))
       __init__ (str "a.json") _ [PDict [(str "name", PStr (str "Sam"))]]
       eq_refl eq_refl _) _).
  - intros p [<- | []]. discriminate.
  - repeat constructor. eexists. reflexivity.
Defined.

(** C7 as the claim states it fails.  The participants list of
    [nameless_participant] holds no entry named ["Alice"], yet the file is
    not skipped without error: reading the name of its entry raises, and
    the per-file error is printed. *)
Lemma findInFile_not_participant_claim_fails :
  load (one_file (str "a.json") nameless_participant) (str "a.json")
  = Some nameless_participant /\
  subscript nameless_participant (str "participants")
  = Ok (PList [PDict [(str "id", PInt 1)]]) /\
  (forall p, In p [PDict [(str "id", PInt 1)]] ->
     subscript p (str "name") <> Ok (PStr (str "Alice"))) /\
  _findInFile (one_file (str "a.json") nameless_participant)
              (fst (setUsername __init__ (Some (str "Alice")))) (str "a.json")
  = print (fst (setUsername __init__ (Some (str "Alice"))))
          (Error_bad_json (str "a.json")) /\
  _findInFile (one_file (str "a.json") nameless_participant)
              (fst (setUsername __init__ (Some (str "Alice")))) (str "a.json")
  <> fst (setUsername __init__ (Some (str "Alice"))).
Proof.
  split; [reflexivity|]. split; [reflexivity|]. split.
  - intros p [<- | []]. discriminate.
  - assert (E : _findInFile (one_file (str "a.json") nameless_participant)
                  (fst (setUsername __init__ (Some (str "Alice")))) (str "a.json")
                = print (fst (setUsername __init__ (Some (str "Alice"))))
                        (Error_bad_json (str "a.json"))) by reflexivity.
    split; [exact E|]. rewrite E. discriminate.
Qed.

(** ** Order of the result *)

Lemma file_records_messages fs u f jdata ms :
  load fs f = Some jdata ->
  not_participant (fresh u) jdata = Ok false ->
  (ms <- subscript jdata (str "messages") ;; iter ms) = Ok ms ->
  file_records fs u f = _result (fst (scan_messages (fresh u) ms)).
Proof.
  intros Hl Hp Hm. unfold file_records, _findInFile. rewrite Hl.
  rewrite (scan_document_messages (fresh u) jdata ms Hp Hm).
  destruct (scan_messages (fresh u) ms) as [s [e|]]; reflexivity.
Qed.

Lemma fold_left_mapped {A B C : Type} (step : A -> B -> A) (g : C -> B) l a :
  fold_left step (map g l) a = fold_left (fun a x => step a (g x)) l a.
Proof. revert a. induction l as [|x l IH]; intros a; cbn; auto. Qed.

(** C8.  The result of a run is the concatenation, in the order the files
    were supplied (or listed, in directory mode), of the records each file
    yields on its own; the records of one file are the concatenation, in
    the order of its messages, of the records of the messages the loop got
    through.  Nothing is merged: a file supplied twice contributes its
    records twice. *)
Theorem result_preserves_order :
  (forall fs self files,
     _result (findInFiles fs self files)
     = flat_map (fun f => if isfile fs f
                          then file_records fs (username self) f else [])
                files) /\
  (forall fs self path,
     isdir fs path = true ->
     _result (findInDirectory fs self path)
     = flat_map (file_records fs (username self))
                (map (path_join path) (listdir fs path))) /\
  (forall fs u f jdata ms,
     load fs f = Some jdata ->
     not_participant (fresh u) jdata = Ok false ->
     (ms <- subscript jdata (str "messages") ;; iter ms) = Ok ms ->
     exists done rest,
       ms = done ++ rest /\
       file_records fs u f = flat_map (message_records u) done /\
       (rest = [] \/
        exists m rest' e, rest = m :: rest' /\
                          scan_message (fresh u) m = Raise e)) /\
  (forall fs self f,
     isfile fs f = true ->
     _result (findInFiles fs self [f; f])
     = file_records fs (username self) f ++ file_records fs (username self) f).
Proof.
  split; [|split; [|split]].
  - intros fs self files. unfold findInFiles.
    now rewrite findInFiles_loop_result.
  - intros fs self path Hd. unfold findInDirectory. rewrite Hd. cbn [negb].
    rewrite <- (fold_left_mapped
      (fun self f => _findInFile fs self f) (path_join path)).
    now rewrite fold_findInFile_result.
  - intros fs u f jdata ms Hl Hp Hm.
    rewrite (file_records_messages fs u f jdata ms Hl Hp Hm).
    destruct (scan_messages_order (fresh u) ms)
      as (done & rest & Hms & Hr & Hn & He).
    exists done, rest. split; [exact Hms|]. split.
    + rewrite Hr. reflexivity.
    + destruct (snd (scan_messages (fresh u) ms)) as [e|].
      * right. destruct (He e eq_refl) as (m & rest' & Hrest & Hm').
        exists m, rest', e. split; assumption.
      * left. apply Hn. reflexivity.
  - intros fs self f Hf. unfold findInFiles.
    rewrite findInFiles_loop_result. cbn [flat_map _initProcess _result username].
    rewrite Hf. now rewrite app_nil_r.
Qed.

Lemma result_preserves_order_witness :
  _result (findInFiles (one_file (str "a.json") repeated_conversation)
             __init__ [str "a.json"; str "a.json"])
  = [mkRecord (PInt 5) (str "Bob"); mkRecord (PInt 5) (str "Bob");
     mkRecord (PInt 5) (str "Bob"); mkRecord (PInt 5) (str "Bob")].
Proof.
  exact (eq_trans
    (proj2 (proj2 (proj2 result_preserves_order))
       (one_file (str "a.json") repeated_conversation) __init__
       (str "a.json") eq_refl)
    eq_refl).
Defined.

(** ** The username *)

(** C9.  [setUsername] with the empty string does what [setUsername] with
    [None] does: nothing at all, so the whole run is the same.  The
    username then stays unset, no file is tested for its participants,
    and every Generic message is scanned whoever sent it. *)
Theorem setUsername_empty_is_none :
  (forall self,
     setUsername self (Some []) = (self, None) /\
     setUsername self None = (self, None)) /\
  (forall fs files dir out,
     main fs (mkArgs files dir (Some []) out)
     = main fs (mkArgs files dir None out)) /\
  username (fst (setUsername __init__ (Some []))) = None /\
  (forall self jdata,
     username self = None ->
     scan_document self jdata
     = match (ms <- subscript jdata (str "messages") ;; iter ms) with
       | Raise e => (self, Some e)
       | Ok ms => scan_messages self ms
       end) /\
  (forall self d v,
     username self = None ->
     scan_message self (PDict ((str "sender_name", v) :: d))
     = scan_message self (PDict d)) /\
  (forall self d c,
     username self = None ->
     generic_content d c ->
     scan_message self (PDict d) =
     match Regex.search c with
     | Some (start, group0) =>
         if (0 <? start)%nat then
           foundNickname <- _fixMojibake (slice_to_last _PHRASE_OFFSET group0) ;;
           ts <- subscript (PDict d) (str "timestamp_ms") ;;
           Ok (append_result self (mkRecord ts foundNickname))
         else Ok self
     | None => Ok self
     end).
Proof.
  split; [|split; [|split; [|split; [|split]]]].
  - intros self. split; reflexivity.
  - reflexivity.
  - reflexivity.
  - intros self jdata Hu. unfold scan_document, not_participant.
    rewrite Hu. reflexivity.
  - intros self d v Hu. apply scan_message_no_username. now rewrite Hu.
  - intros self d c Hu Hg. apply scan_message_scanned; [|exact Hg].
    left. now rewrite Hu.
Qed.

(** ** The entry point *)

(** An invalid directory: nothing is searched, [crashed] stays [False],
    and the result, empty, is printed and, the file system permitting,
    written. *)
Lemma main_invalid_directory fs files c d u out finder0 :
  setUsername __init__ u = (finder0, None) ->
  isdir fs (c :: d) = false ->
  dump fs out [] = None ->
  main fs (mkArgs files (Some (c :: d)) u out)
  = (mkFinder (username finder0) [] false
       (trace finder0 ++
        [FATAL_invalid_directory (c :: d); Found_nicknames 0;
         File_written out [] 0; Output_written out]),
     Completed).
Proof.
  intros Hu Hd Hw. unfold main. cbn [args_username args_directory args_output].
  rewrite Hu. unfold findInDirectory. rewrite Hd. cbn [negb].
  cbn. unfold writeResult. cbn. rewrite Hw.
  unfold print. cbn. rewrite <- !app_assoc. reflexivity.
Qed.

(** C1 (the code at the failing input).  Run with [--directory
    /nonexistent], the script prints the fatal message and processes no
    entry, but then prints the empty result and writes the output file:
    [crashed] is never set. *)
Theorem main_invalid_directory_writes_output :
  main empty_filesystem
       (mkArgs [] (Some (str "/nonexistent")) None (str "output.json"))
  = (mkFinder None [] false
       [FATAL_invalid_directory (str "/nonexistent"); Found_nicknames 0;
        File_written (str "output.json") [] 0;
        Output_written (str "output.json")],
     Completed).
Proof.
  exact (main_invalid_directory empty_filesystem [] 47 (str "nonexistent")
           None (str "output.json") __init__ eq_refl eq_refl eq_refl).
Qed.

(** * Further properties of the code *)

(** ** The repair and its inverse *)

Lemma encode_latin1_inv s bs : Codec.encode_latin1 s = Ok bs -> bs = s /\ Forall byte s.
Proof.
  revert bs. induction s as [|c s IH]; intros bs H; cbn in H.
  - apply Ok_inj in H. subst bs. split; constructor.
  - destruct (Z.leb_spec 0 c), (Z.ltb_spec c 256); cbn [andb] in H;
      try discriminate.
    destruct (Codec.encode_latin1 s) as [bs'|] eqn:E; [|discriminate].
    cbn [bind] in H. apply Ok_inj in H. subst bs.
    destruct (IH bs' eq_refl) as [-> Hb].
    split; [reflexivity|]. constructor; [unfold byte; lia | exact Hb].
Qed.

Lemma between_false_inv lo hi b :
  Codec.between lo hi b = false -> b < lo \/ hi < b.
Proof.
  unfold Codec.between. rewrite andb_false_iff.
  intros [H | H]; [apply Z.leb_gt in H | apply Z.leb_gt in H]; lia.
Qed.

(** What the strict decoder accepts is what the encoder writes. *)
Lemma encode_decode_utf8_bounded n :
  forall bs s, (List.length bs <= n)%nat ->
    Codec.decode_utf8 bs = Ok s -> Codec.encode_utf8 s = Ok bs.
Proof.
  induction n as [|n IH]; intros bs s Hn H.
  { destruct bs; [|cbn in Hn; lia]. cbn in H. apply Ok_inj in H.
    now subst s. }
  destruct bs as [|b0 r0]; [cbn in H; apply Ok_inj in H; now subst s|].
  pose proof H as H'. cbn [Codec.decode_utf8] in H'.
  destruct (Codec.between 0 127 b0) eqn:T1.
  { clear H'. apply between_spec in T1. rewrite decode_utf8_1 in H by lia.
    destruct (Codec.decode_utf8 r0) as [s0|] eqn:D; [|discriminate].
    cbn [bind] in H. apply Ok_inj in H. subst s.
    cbn [Codec.encode_utf8]. rewrite utf8_char_1 by lia.
    rewrite (IH r0 s0) by (cbn in Hn; auto; lia). reflexivity. }
  apply between_false_inv in T1.
  destruct r0 as [|b1 r1]; [discriminate|].
  destruct (Codec.between 194 223 b0) eqn:T2.
  { destruct (Codec.between 128 191 b1) eqn:C1; [|discriminate]. clear H'.
    apply between_spec in T2, C1. rewrite decode_utf8_2 in H by lia.
    destruct (Codec.decode_utf8 r1) as [s0|] eqn:D; [|discriminate].
    cbn [bind] in H. apply Ok_inj in H. subst s.
    cbn [Codec.encode_utf8]. rewrite utf8_char_2 by lia.
    rewrite (IH r1 s0) by (cbn in Hn; auto; lia). cbn [bind app].
    replace (192 + ((b0 - 192) * 64 + (b1 - 128)) / 64) with b0 by dlia.
    replace (128 + ((b0 - 192) * 64 + (b1 - 128)) mod 64) with b1 by dlia.
    reflexivity. }
  apply between_false_inv in T2.
  destruct r1 as [|b2 r2]; [discriminate|].
  destruct (Codec.between 224 239 b0) eqn:T3.
  { destruct (Codec.between (if b0 =? 224 then 160 else 128)
                            (if b0 =? 237 then 159 else 191) b1) eqn:C1;
      [|discriminate].
    destruct (Codec.between 128 191 b2) eqn:C2; [|discriminate]. clear H'.
    apply between_spec in T3, C1, C2.
    rewrite decode_utf8_3 in H by assumption.
    destruct (Codec.decode_utf8 r2) as [s0|] eqn:D; [|discriminate].
    cbn [bind] in H. apply Ok_inj in H. subst s.
    assert (B1 : 128 <= b1 <= 191 /\ (b0 = 224 -> 160 <= b1) /\
                 (b0 = 237 -> b1 <= 159)).
    { destruct (Z.eqb_spec b0 224), (Z.eqb_spec b0 237); lia. }
    cbn [Codec.encode_utf8]. rewrite utf8_char_3 by lia.
    rewrite (IH r2 s0) by (cbn in Hn; auto; lia). cbn [bind app].
    replace (224 + ((b0 - 224) * 4096 + (b1 - 128) * 64 + (b2 - 128)) / 4096)
      with b0 by dlia.
    replace (128 + (((b0 - 224) * 4096 + (b1 - 128) * 64 + (b2 - 128)) / 64)
                   mod 64) with b1 by dlia.
    replace (128 + ((b0 - 224) * 4096 + (b1 - 128) * 64 + (b2 - 128)) mod 64)
      with b2 by dlia.
    reflexivity. }
  apply between_false_inv in T3.
  destruct r2 as [|b3 r3]; [discriminate|].
  destruct (Codec.between 240 244 b0) eqn:T4; [|discriminate].
  destruct (Codec.between (if b0 =? 240 then 144 else 128)
                          (if b0 =? 244 then 143 else 191) b1) eqn:C1;
    [|discriminate].
  destruct (Codec.between 128 191 b2) eqn:C2; [|discriminate].
  destruct (Codec.between 128 191 b3) eqn:C3; [|discriminate]. clear H'.
  apply between_spec in T4, C1, C2, C3.
  rewrite decode_utf8_4 in H by assumption.
  destruct (Codec.decode_utf8 r3) as [s0|] eqn:D; [|discriminate].
  cbn [bind] in H. apply Ok_inj in H. subst s.
  assert (B1 : 128 <= b1 <= 191 /\ (b0 = 240 -> 144 <= b1) /\
               (b0 = 244 -> b1 <= 143)).
  { destruct (Z.eqb_spec b0 240), (Z.eqb_spec b0 244); lia. }
  cbn [Codec.encode_utf8]. rewrite utf8_char_4 by lia.
  rewrite (IH r3 s0) by (cbn in Hn; auto; lia). cbn [bind app].
  replace (240 + ((b0 - 240) * 262144 + (b1 - 128) * 4096 + (b2 - 128) * 64
                  + (b3 - 128)) / 262144) with b0 by dlia.
  replace (128 + (((b0 - 240) * 262144 + (b1 - 128) * 4096 + (b2 - 128) * 64
                   + (b3 - 128)) / 4096) mod 64) with b1 by dlia.
  replace (128 + (((b0 - 240) * 262144 + (b1 - 128) * 4096 + (b2 - 128) * 64
                   + (b3 - 128)) / 64) mod 64) with b2 by dlia.
  replace (128 + ((b0 - 240) * 262144 + (b1 - 128) * 4096 + (b2 - 128) * 64
                  + (b3 - 128)) mod 64) with b3 by dlia.
  reflexivity.
Qed.

Lemma encode_decode_utf8 bs s :
  Codec.decode_utf8 bs = Ok s -> Codec.encode_utf8 s = Ok bs.
Proof. apply (encode_decode_utf8_bounded (List.length bs)). lia. Qed.

(** X1.  [_unfixMojibake] undoes [_fixMojibake]: whenever the repair of
    [t] is defined, with value [s], the code points of [t] are bytes, [s]
    holds Unicode scalar values only, and [_unfixMojibake s] is [t]. *)
Theorem unfixMojibake_fixMojibake (t s : pystr) :
  _fixMojibake t = Ok s ->
  _unfixMojibake s = Ok t /\ Forall byte t /\ Forall scalar s.
Proof.
  unfold _fixMojibake, _unfixMojibake, Codec.decode_latin1. intros H.
  destruct (Codec.encode_latin1 t) as [bs|] eqn:E; [|discriminate].
  cbn [bind] in H. destruct (encode_latin1_inv t bs E) as [-> Hb].
  pose proof (encode_decode_utf8 t s H) as He.
  rewrite He. cbn [bind]. split; [reflexivity|]. split; [exact Hb|].
  exact (encode_utf8_ok_scalar s t He).
Qed.

Lemma unfixMojibake_fixMojibake_witness :
  _unfixMojibake [233] = Ok [195; 169] /\ Forall byte [195; 169] /\
  Forall scalar [233].
Proof. exact (unfixMojibake_fixMojibake [195; 169] [233] eq_refl). Defined.

Lemma encode_utf8_ascii s :
  Forall (fun c => 0 <= c < 128) s -> Codec.encode_utf8 s = Ok s.
Proof.
  induction 1 as [|c s Hc _ IH]; cbn [Codec.encode_utf8]; [reflexivity|].
  rewrite utf8_char_1 by lia. rewrite IH. reflexivity.
Qed.

(** X2.  On a string of ASCII characters both the repair and its inverse
    are the identity. *)
Theorem fixMojibake_ascii (s : pystr) :
  Forall (fun c => 0 <= c < 128) s ->
  _fixMojibake s = Ok s /\ _unfixMojibake s = Ok s.
Proof.
  intros H. pose proof (encode_utf8_ascii s H) as He.
  assert (Hu : _unfixMojibake s = Ok s).
  { unfold _unfixMojibake. now rewrite He. }
  split; [|exact Hu].
  unfold _fixMojibake.
  rewrite (encode_latin1_bytes s (encode_utf8_bytes s s He)). cbn [bind].
  exact (decode_encode_utf8 s s He).
Qed.

Lemma fixMojibake_ascii_witness :
  _fixMojibake (str "Bob") = Ok (str "Bob") /\
  _unfixMojibake (str "Bob") = Ok (str "Bob").
Proof.
  apply fixMojibake_ascii. repeat constructor; cbn; lia.
Defined.

(** X3.  A string with a code point above 255 cannot be repaired: the
    Latin-1 step raises [UnicodeEncodeError], wherever the code point
    stands. *)
Theorem fixMojibake_not_latin1 (s : pystr) (c : Z) :
  In c s -> 256 <= c ->
  _fixMojibake s = Raise UnicodeEncodeError.
Proof.
  intros Hin Hc. unfold _fixMojibake.
  assert (E : Codec.encode_latin1 s = Raise UnicodeEncodeError).
  { induction s as [|x s IH]; [destruct Hin|]. cbn [Codec.encode_latin1].
    destruct ((0 <=? x) && (x <? 256)) eqn:B; [|reflexivity].
    destruct Hin as [-> | Hin].
    - apply andb_true_iff in B. destruct B as [_ B].
      apply Z.ltb_lt in B. lia.
    - rewrite (IH Hin). reflexivity. }
  now rewrite E.
Qed.

Lemma fixMojibake_not_latin1_witness :
  _fixMojibake [66; 8364; 98] = Raise UnicodeEncodeError.
Proof.
  apply (fixMojibake_not_latin1 [66; 8364; 98] 8364).
  - right. left. reflexivity.
  - lia.
Defined.

(** ** The search *)

Lemma phrase_match_nil : ~ phrase_match [].
Proof. intros (rest & H & _). discriminate. Qed.

Lemma search_from_spec s : forall k i g,
  Regex.search_from k s = Some (i, g) <->
  (k <= i)%nat /\ g = skipn (i - k) s /\ phrase_match g /\
  (forall j, (j < i - k)%nat -> ~ phrase_match (skipn j s)).
Proof.
  induction s as [|x s IH]; intros k i g.
  - cbn [Regex.search_from].
    rewrite (match_here_None [] phrase_match_nil). split; [discriminate|].
    intros (_ & -> & Hm & _). rewrite skipn_nil in Hm.
    destruct (phrase_match_nil Hm).
  - cbn [Regex.search_from].
    destruct (Regex.match_here (x :: s)) as [g'|] eqn:E.
    + apply match_here_Some in E. destruct E as [-> Hm]. split.
      * intros [= <- <-]. rewrite Nat.sub_diag.
        repeat split; auto. intros j Hj. lia.
      * intros (Hk & -> & Hg & Hleft).
        destruct (i - k)%nat as [|n] eqn:En.
        -- replace i with k by lia. reflexivity.
        -- exfalso. apply (Hleft 0%nat); [lia | exact Hm].
    + assert (Hno : ~ phrase_match (x :: s)).
      { intros Hm.
        rewrite (proj2 (match_here_Some _ _) (conj eq_refl Hm)) in E.
        discriminate. }
      rewrite IH. split.
      * intros (Hk & -> & Hg & Hleft). split; [lia|].
        replace (i - k)%nat with (S (i - S k)) by lia.
        split; [reflexivity|]. split; [exact Hg|].
        intros [|j] Hj; [exact Hno|]. cbn [skipn]. apply Hleft. lia.
      * intros (Hk & -> & Hg & Hleft).
        destruct (i - k)%nat as [|n] eqn:En; [contradiction|].
        split; [lia|]. replace (i - S k)%nat with n by lia.
        split; [reflexivity|]. split; [exact Hg|].
        intros j Hj. apply (Hleft (S j)). lia.
Qed.

Lemma search_from_None s : forall k,
  Regex.search_from k s = None -> forall j, ~ phrase_match (skipn j s).
Proof.
  induction s as [|x s IH]; intros k E j Hm.
  - rewrite skipn_nil in Hm. exact (phrase_match_nil Hm).
  - cbn [Regex.search_from] in E.
    destruct (Regex.match_here (x :: s)) eqn:M; [discriminate|].
    destruct j as [|j].
    + cbn [skipn] in Hm.
      rewrite (proj2 (match_here_Some _ _) (conj eq_refl Hm)) in M.
      discriminate.
    + cbn [skipn] in Hm. exact (IH (S k) E j Hm).
Qed.

(** X4.  [_REGEX.search] returns the leftmost offset at which the phrase
    is followed by one or more characters, none a newline, up to the end
    of the string, and [group(0)] is the string from that offset on; it
    returns no match exactly when there is no such offset. *)
Theorem search_leftmost (s : pystr) :
  (forall i g,
     Regex.search s = Some (i, g) <->
     g = skipn i s /\ phrase_match g /\
     (forall j, (j < i)%nat -> ~ phrase_match (skipn j s))) /\
  (Regex.search s = None <-> forall j, ~ phrase_match (skipn j s)).
Proof.
  assert (Hs : forall i g,
     Regex.search s = Some (i, g) <->
     g = skipn i s /\ phrase_match g /\
     (forall j, (j < i)%nat -> ~ phrase_match (skipn j s))).
  { intros i g. unfold Regex.search. rewrite search_from_spec.
    rewrite Nat.sub_0_r. split; [tauto|]. intros H. split; [lia | tauto]. }
  split; [exact Hs|]. split.
  - intros Hn. exact (search_from_None s 0%nat Hn).
  - intros Hno. destruct (Regex.search s) as [[i g]|]; [|reflexivity].
    destruct (proj1 (Hs i g) eq_refl) as (-> & Hg & _). destruct (Hno i Hg).
Qed.

(** ** What a record comes from *)

(** X5.  Every record the loop body appends comes from a Generic message
    whose content is a non-empty prefix, the phrase, a raw nickname and one
    more character, without a newline after the phrase: the nickname of
    the record is the repair of the raw nickname, and its timestamp is the
    [timestamp_ms] of the message. *)
Theorem scan_message_record_sound (self self' : finder) (m : pyval) :
  scan_message self m = Ok self' ->
  _result self' <> _result self ->
  exists d A raw c n ts,
    m = PDict d /\ A <> [] /\
    generic_content d (A ++ Regex.MATCH_PHRASE ++ raw ++ [c]) /\
    Forall (fun x => x <> 10) (raw ++ [c]) /\
    _fixMojibake raw = Ok n /\
    lookup (str "timestamp_ms") d = Some ts /\
    self' = append_result self (mkRecord ts n).
Proof.
  intros H Hne.
  destruct (scan_message_inv _ _ _ H)
    as [-> | (d & c0 & start & g & n & ts & -> & Hg & Hr & Hpos & Hn & Hts & ->)];
    [congruence|].
  unfold Regex.search in Hr. apply search_from_sound in Hr.
  rewrite Nat.sub_0_r in Hr. destruct Hr as (_ & Hgs & (rest & Hrest & Hne' & Hnl)).
  destruct (exists_last Hne') as (raw & c & ->).
  subst g. rewrite Hrest, slice_phrase in Hn.
  exists d, (firstn start c0), raw, c, n, ts.
  split; [reflexivity|]. split.
  - intros Hf.
    assert (Hl : List.length (skipn start c0) = List.length c0).
    { rewrite <- (firstn_skipn start c0) at 2. now rewrite Hf. }
    rewrite length_skipn in Hl.
    assert (List.length c0 = 0%nat) by lia.
    destruct c0; [|discriminate]. rewrite skipn_nil in Hrest. discriminate.
  - split.
    + rewrite <- Hrest, firstn_skipn. exact Hg.
    + repeat split; assumption.
Qed.

Lemma scan_message_record_sound_witness :
  exists d A raw c n ts,
    PDict (message_fields (str "Sam") 5 (str "Sam set your nickname to Bob."))
    = PDict d /\ A <> [] /\
    generic_content d (A ++ Regex.MATCH_PHRASE ++ raw ++ [c]) /\
    Forall (fun x => x <> 10) (raw ++ [c]) /\
    _fixMojibake raw = Ok n /\
    lookup (str "timestamp_ms") d = Some ts /\
    append_result __init__ (mkRecord (PInt 5) (str "Bob"))
    = append_result __init__ (mkRecord ts n).
Proof.
  apply (scan_message_record_sound __init__
           (append_result __init__ (mkRecord (PInt 5) (str "Bob")))
           (PDict (message_fields (str "Sam") 5
                     (str "Sam set your nickname to Bob.")))).
  - reflexivity.
  - discriminate.
Defined.

Lemma no_phrase_no_match c :
  (forall pre suf, c <> pre ++ Regex.MATCH_PHRASE ++ suf) ->
  Regex.search c = None.
Proof.
  intros H. destruct (Regex.search c) as [[i g]|] eqn:E; [|reflexivity].
  unfold Regex.search in E. apply search_from_sound in E.
  destruct E as (_ & Hg & (rest & Hr & _)). exfalso.
  apply (H (firstn (i - 0) c) rest). rewrite <- Hr, Hg.
  symmetry. apply firstn_skipn.
Qed.

(** X6.  A parsed file that passes the participant test and whose messages
    all pass the sender and type filters with a content in which the
    phrase does not occur is left without a trace: no record, no line. *)
Theorem findInFile_no_phrase
    (fs : filesystem) (self : finder) (f : pystr) (jdata : pyval)
    (ms : list pyval) :
  load fs f = Some jdata ->
  not_participant self jdata = Ok false ->
  subscript jdata (str "messages") = Ok (PList ms) ->
  Forall (fun m => exists d c,
            m = PDict d /\ other_sender self d /\ generic_content d c /\
            forall pre suf, c <> pre ++ Regex.MATCH_PHRASE ++ suf) ms ->
  _findInFile fs self f = self.
Proof.
  intros Hl Hp Hm Hall. unfold _findInFile. rewrite Hl.
  rewrite (scan_document_messages self jdata ms Hp)
    by (rewrite Hm; reflexivity).
  assert (E : scan_messages self ms = (self, None)).
  { clear Hm. induction Hall as [|m ms (d & c & -> & Hs & Hg & Hno) _ IH];
      [reflexivity|].
    cbn [scan_messages]. rewrite (scan_message_scanned self d c Hs Hg).
    rewrite (no_phrase_no_match c Hno). exact IH. }
  now rewrite E.
Qed.

Lemma findInFile_no_phrase_witness :
  _findInFile
    (one_file (str "a.json")
       (conversation [PDict (message_fields (str "Sam") 5 (str "hello"))]))
    __init__ (str "a.json")
  = __init__.
Proof.
  apply (findInFile_no_phrase _ _ _
           (conversation [PDict (message_fields (str "Sam") 5 (str "hello"))])
           [PDict (message_fields (str "Sam") 5 (str "hello"))]).
  - reflexivity.
  - reflexivity.
  - reflexivity.
  - constructor; [|constructor].
    exists (message_fields (str "Sam") 5 (str "hello")), (str "hello").
    split; [reflexivity|]. split; [left; reflexivity|].
    split; [apply message_fields_generic|].
    intros pre suf H. apply (f_equal (@List.length Z)) in H.
    rewrite !length_app in H. cbn in H. lia.
Defined.

(** X7.  The type and content tests, for a message that is not one of the
    user's own.  A message without a [type] raises the missing-key error;
    a message whose type is not ["Generic"], or that has no [content], is
    skipped without error whatever else it holds; a Generic message whose
    content is not a string raises [TypeError]. *)
Theorem scan_message_type_content
    (self : finder) (d : list (pystr * pyval)) :
  other_sender self d ->
  (lookup (str "type") d = None ->
     scan_message self (PDict d) = Raise (KeyError (str "type"))) /\
  (forall ty, lookup (str "type") d = Some ty ->
     eq_str ty (str "Generic") = false \/ lookup (str "content") d = None ->
     scan_message self (PDict d) = Ok self) /\
  (forall ty v, lookup (str "type") d = Some ty ->
     eq_str ty (str "Generic") = true ->
     lookup (str "content") d = Some v ->
     (forall c, v <> PStr c) ->
     scan_message self (PDict d) = Raise TypeError).
Proof.
  intros Hs.
  assert (Own : (if truthy (username self)
                 then sender <- subscript (PDict d) (str "sender_name") ;;
                      Ok (eq_username sender (username self))
                 else Ok false) = Ok false).
  { destruct Hs as [-> | (v & Hv & Hne)]; [reflexivity|].
    destruct (truthy (username self)); [|reflexivity].
    cbn [subscript]. rewrite Hv. cbn [bind]. now rewrite Hne. }
  split; [|split].
  - intros Ht. unfold scan_message. rewrite Own.
    cbn [bind subscript]. now rewrite Ht.
  - intros ty Ht Hskip. unfold scan_message. rewrite Own.
    cbn [bind subscript key_in]. unfold contains. rewrite Ht. cbn [bind].
    destruct Hskip as [-> | ->]; [reflexivity|].
    cbn [negb]. now rewrite orb_true_r.
  - intros ty v Ht Hg Hc Hv. unfold scan_message. rewrite Own.
    cbn [bind subscript key_in]. unfold contains. rewrite Ht, Hc.
    cbn [bind]. rewrite Hg. cbn [negb orb].
    destruct v; try reflexivity. destruct (Hv s eq_refl).
Qed.

Lemma scan_message_type_content_witness :
  scan_message __init__
    (PDict [(str "type", PStr (str "Share"));
            (str "content", PStr (str "Sam set your nickname to Bob."))])
  = Ok __init__.
Proof.
  refine (proj1 (proj2
    (scan_message_type_content __init__
       [(str "type", PStr (str "Share"));
        (str "content", PStr (str "Sam set your nickname to Bob."))] _))
    (PStr (str "Share")) eq_refl (or_introl eq_refl)).
  left. reflexivity.
Defined.

(** ** The username in its raw form *)

Lemma setUsername_raw (self0 : finder) (u raw : pystr) :
  u <> [] -> _fixMojibake raw = Ok u ->
  setUsername self0 (Some u)
  = (mkFinder (Some raw) (_result self0) (crashed self0)
              (trace self0 ++ [INFO_skipping u]), None) /\
  truthy (Some raw) = true.
Proof.
  intros Hu Hf.
  assert (Hr : _unfixMojibake u = Ok raw).
  { unfold _fixMojibake in Hf. unfold _unfixMojibake, Codec.decode_latin1.
    destruct (Codec.encode_latin1 raw) as [bs|] eqn:E; [|discriminate].
    cbn [bind] in Hf. destruct (encode_latin1_inv raw bs E) as [-> _].
    now rewrite (encode_decode_utf8 raw u Hf). }
  split.
  - unfold setUsername. destruct u as [|c u]; [congruence|].
    cbn [truthy]. rewrite Hr. reflexivity.
  - destruct raw as [|b raw]; [|reflexivity].
    cbn in Hf. apply Ok_inj in Hf. congruence.
Qed.

(** X8.  [setUsername] stores the username in the corrupted form the
    export uses: after [setUsername u], a message whose [sender_name]
    repairs to [u] is one of the user's own and is skipped. *)
Theorem setUsername_skips_raw_sender
    (self0 : finder) (u raw : pystr) (d : list (pystr * pyval)) :
  u <> [] ->
  _fixMojibake raw = Ok u ->
  lookup (str "sender_name") d = Some (PStr raw) ->
  snd (setUsername self0 (Some u)) = None /\
  username (fst (setUsername self0 (Some u))) = Some raw /\
  scan_message (fst (setUsername self0 (Some u))) (PDict d)
  = Ok (fst (setUsername self0 (Some u))).
Proof.
  intros Hu Hf Hd. destruct (setUsername_raw self0 u raw Hu Hf) as [E Ht].
  rewrite E. cbn [fst snd username]. split; [reflexivity|]. split; [reflexivity|].
  apply (scan_message_own _ d (PStr raw)); cbn [username];
    [exact Ht | exact Hd | apply str_eqb_refl].
Qed.

Lemma setUsername_skips_raw_sender_witness :
  scan_message (fst (setUsername __init__ (Some [233])))
    (PDict (message_fields [195; 169] 5 (str "Sam set your nickname to Bob.")))
  = Ok (fst (setUsername __init__ (Some [233]))).
Proof.
  refine (proj2 (proj2
    (setUsername_skips_raw_sender __init__ [233] [195; 169]
       (message_fields [195; 169] 5 (str "Sam set your nickname to Bob."))
       _ eq_refl eq_refl))).
  discriminate.
Defined.

(** X9.  [_isParticipant] looks at the entries in order and stops at the
    first whose name equals the username.  With the entries of [ps1] all
    named otherwise: the answer is [False] when they are the whole list;
    it is [True] when the next entry bears the username, whatever follows
    it; and an exception of the next entry's name lookup is raised. *)
Theorem isParticipant_first_match
    (self : finder) (ps1 : list pyval) :
  Forall (fun q => exists n, subscript q (str "name") = Ok n /\
                             eq_username n (username self) = false) ps1 ->
  _isParticipant self (PList ps1) = Ok false /\
  (forall p ps2 n,
     subscript p (str "name") = Ok n ->
     eq_username n (username self) = true ->
     _isParticipant self (PList (ps1 ++ p :: ps2)) = Ok true) /\
  (forall p ps2 e,
     subscript p (str "name") = Raise e ->
     _isParticipant self (PList (ps1 ++ p :: ps2)) = Raise e).
Proof.
  unfold _isParticipant. cbn [iter bind].
  induction 1 as [|q ps1 (n & Hn & Hne) _ (IH1 & IH2 & IH3)].
  - split; [reflexivity|]. split.
    + intros p ps2 n Hn He. cbn [app isParticipant_loop].
      rewrite Hn. cbn [bind]. now rewrite He.
    + intros p ps2 e He. cbn [app isParticipant_loop]. now rewrite He.
  - split; [|split].
    + cbn [isParticipant_loop]. rewrite Hn. cbn [bind]. now rewrite Hne.
    + intros p ps2 n' Hn' He. cbn [app isParticipant_loop].
      rewrite Hn. cbn [bind]. rewrite Hne. now apply IH2 with (n := n').
    + intros p ps2 e He. cbn [app isParticipant_loop].
      rewrite Hn. cbn [bind]. rewrite Hne. now apply IH3.
Qed.

Lemma isParticipant_first_match_witness :
  _isParticipant (fst (setUsername __init__ (Some (str "Alice"))))
    (PList ([PDict [(str "name", PStr (str "Sam"))]] ++
            PDict [(str "name", PStr (str "Alice"))] :: [PInt 7]))
  = Ok true.
Proof.
  refine (proj1 (proj2
    (isParticipant_first_match
       (fst (setUsername __init__ (Some (str "Alice"))))
       [PDict [(str "name", PStr (str "Sam"))]] _))
    (PDict [(str "name", PStr (str "Alice"))]) [PInt 7]
    (PStr (str "Alice")) eq_refl eq_refl).
  repeat constructor. exists (PStr (str "Sam")). split; reflexivity.
Defined.

Lemma isParticipant_loop_found u ps1 p ps2 n :
  Forall (fun q => exists m, subscript q (str "name") = Ok m /\
                             eq_username m u = false) ps1 ->
  subscript p (str "name") = Ok n ->
  eq_username n u = true ->
  isParticipant_loop u (ps1 ++ p :: ps2) = Ok true.
Proof.
  intros Hps Hn He. induction Hps as [|q ps1 (m & Hm & Hne) _ IH];
    cbn [app isParticipant_loop].
  - rewrite Hn. cbn [bind]. now rewrite He.
  - rewrite Hm. cbn [bind]. now rewrite Hne.
Qed.

(** X10.  After [setUsername u], a parsed file is kept for scanning as
    soon as its participants list has an entry whose name repairs to [u],
    the entries before it being named otherwise: the file is then scanned
    message by message. *)
Theorem setUsername_keeps_raw_participant
    (self0 : finder) (u raw : pystr) (jdata : pyval)
    (ps1 : list pyval) (p : pyval) (ps2 : list pyval) :
  u <> [] ->
  _fixMojibake raw = Ok u ->
  subscript jdata (str "participants") = Ok (PList (ps1 ++ p :: ps2)) ->
  Forall (fun q => exists n, subscript q (str "name") = Ok n /\
                             eq_str n raw = false) ps1 ->
  subscript p (str "name") = Ok (PStr raw) ->
  not_participant (fst (setUsername self0 (Some u))) jdata = Ok false /\
  scan_document (fst (setUsername self0 (Some u))) jdata
  = match (ms <- subscript jdata (str "messages") ;; iter ms) with
    | Raise e => (fst (setUsername self0 (Some u)), Some e)
    | Ok ms => scan_messages (fst (setUsername self0 (Some u))) ms
    end.
Proof.
  intros Hu Hf Hp Hps Hname.
  destruct (setUsername_raw self0 u raw Hu Hf) as [Es Ht].
  rewrite Es. cbn [fst].
  set (self := mkFinder (Some raw) (_result self0) (crashed self0)
                        (trace self0 ++ [INFO_skipping u])).
  assert (E : not_participant self jdata = Ok false).
  { unfold not_participant, _isParticipant. cbn [username self].
    rewrite Ht, Hp. cbn [bind iter].
    rewrite (isParticipant_loop_found (Some raw) ps1 p ps2 (PStr raw) Hps
               Hname (str_eqb_refl raw)).
    reflexivity. }
  split; [exact E|]. unfold scan_document. now rewrite E.
Qed.

Lemma setUsername_keeps_raw_participant_witness :
  not_participant (fst (setUsername __init__ (Some [233])))
    (PDict [(str "participants",
             PList ([PDict [(str "name", PStr (str "Sam"))]] ++
                    PDict [(str "name", PStr [195; 169])] :: []));
            (str "messages", PList [])])
  = Ok false.
Proof.
  refine (proj1
    (setUsername_keeps_raw_participant __init__ [233] [195; 169]
       (PDict [(str "participants",
                PList ([PDict [(str "name", PStr (str "Sam"))]] ++
                       PDict [(str "name", PStr [195; 169])] :: []));
               (str "messages", PList [])])
       [PDict [(str "name", PStr (str "Sam"))]]
       (PDict [(str "name", PStr [195; 169])]) [] _ eq_refl eq_refl _ eq_refl)).
  - discriminate.
  - repeat constructor. exists (PStr (str "Sam")). split; reflexivity.
Defined.

(** ** What a file can change *)

(** X11.  [_findInFile] never changes the username or [crashed], never
    removes a record, and prints at most one line: the warning when the
    file does not parse, in which case the result is unchanged, or the
    per-file error. *)
Theorem findInFile_frame (fs : filesystem) (self : finder) (f : pystr) :
  username (_findInFile fs self f) = username self /\
  crashed (_findInFile fs self f) = crashed self /\
  (exists rs, _result (_findInFile fs self f) = _result self ++ rs) /\
  (trace (_findInFile fs self f) = trace self \/
   (load fs f = None /\
    _findInFile fs self f = print self (WARN_not_json f)) \/
   (load fs f <> None /\
    trace (_findInFile fs self f) = trace self ++ [Error_bad_json f])).
Proof.
  split; [apply findInFile_username|].
  split; [|split; [rewrite findInFile_result; eexists; reflexivity|]].
  - unfold _findInFile. destruct (load fs f) as [jdata|]; [|reflexivity].
    destruct (scan_document_extend self jdata) as [rs Hrs].
    destruct (scan_document self jdata) as [s [e|]]; cbn [fst] in Hrs;
      subst s; reflexivity.
  - unfold _findInFile. destruct (load fs f) as [jdata|] eqn:Hl.
    + destruct (scan_document_extend self jdata) as [rs Hrs].
      destruct (scan_document self jdata) as [s [e|]]; cbn [fst] in Hrs;
        subst s.
      * right. right. split; [discriminate | reflexivity].
      * left. reflexivity.
    + right. left. split; reflexivity.
Qed.

(** ** Paths that give nothing *)

Lemma file_records_unloadable fs u f : load fs f = None -> file_records fs u f = [].
Proof. intros H. unfold file_records, _findInFile. now rewrite H. Qed.

(** X12.  A path that is not a regular file, or whose content does not
    parse, contributes nothing and stops nothing: the result of
    [findInFiles] is the same with the path as without it. *)
Theorem findInFiles_ignores_bad_path
    (fs : filesystem) (self : finder) (files1 files2 : list pystr) (f : pystr) :
  isfile fs f = false \/ load fs f = None ->
  _result (findInFiles fs self (files1 ++ f :: files2))
  = _result (findInFiles fs self (files1 ++ files2)).
Proof.
  intros H. unfold findInFiles. rewrite !findInFiles_loop_result.
  f_equal. rewrite !flat_map_app. f_equal. cbn [flat_map].
  destruct (isfile fs f); [|reflexivity].
  destruct H as [H | H]; [discriminate|].
  now rewrite (file_records_unloadable fs _ f H).
Qed.

Lemma findInFiles_ignores_bad_path_witness :
  _result (findInFiles (one_file (str "a.json") repeated_conversation) __init__
             ([str "a.json"] ++ str "b.json" :: [str "a.json"]))
  = _result (findInFiles (one_file (str "a.json") repeated_conversation) __init__
               ([str "a.json"] ++ [str "a.json"])).
Proof.
  apply findInFiles_ignores_bad_path. left. reflexivity.
Defined.

(** ** A run starts afresh *)

Lemma findInFiles_loop_username fs self files :
  username (findInFiles_loop fs self files) = username self.
Proof.
  revert self. induction files as [|f files IH]; intros self; cbn;
    [reflexivity|].
  destruct (isfile fs f); cbn [negb]; rewrite IH;
    [apply findInFile_username | reflexivity].
Qed.

Lemma fold_findInFile_username fs self files :
  username (fold_left (fun self f => _findInFile fs self f) files self)
  = username self.
Proof.
  revert self. induction files as [|f files IH]; intros self; cbn;
    [reflexivity|].
  rewrite IH. apply findInFile_username.
Qed.

Lemma findInDirectory_result fs self path :
  _result (findInDirectory fs self path)
  = if isdir fs path
    then flat_map (file_records fs (username self))
                  (map (path_join path) (listdir fs path))
    else [].
Proof.
  unfold findInDirectory. destruct (isdir fs path); cbn [negb];
    [|reflexivity].
  rewrite <- (fold_left_mapped
    (fun self f => _findInFile fs self f) (path_join path)).
  now rewrite fold_findInFile_result.
Qed.

Lemma findInDirectory_username fs self path :
  username (findInDirectory fs self path) = username self.
Proof.
  unfold findInDirectory. destruct (isdir fs path); cbn [negb];
    [|reflexivity].
  rewrite <- (fold_left_mapped
    (fun self f => _findInFile fs self f) (path_join path)).
  now rewrite fold_findInFile_username.
Qed.

(** X13.  [findInFiles] and [findInDirectory] start from an empty result:
    what they find depends on the username only, not on what the finder
    found before, so a second run over the same input gives the same
    result instead of doubling it. *)
Theorem find_starts_afresh (fs : filesystem) (self : finder) :
  (forall files,
     _result (findInFiles fs self files)
     = _result (findInFiles fs (fresh (username self)) files) /\
     _result (findInFiles fs (findInFiles fs self files) files)
     = _result (findInFiles fs self files)) /\
  (forall path,
     _result (findInDirectory fs self path)
     = _result (findInDirectory fs (fresh (username self)) path) /\
     _result (findInDirectory fs (findInDirectory fs self path) path)
     = _result (findInDirectory fs self path)).
Proof.
  split.
  - intros files. unfold findInFiles. rewrite !findInFiles_loop_result.
    cbn [_initProcess username _result fresh]. split; [reflexivity|].
    now rewrite findInFiles_loop_username.
  - intros path. rewrite !findInDirectory_result.
    cbn [username fresh]. split; [reflexivity|].
    now rewrite findInDirectory_username.
Qed.

(** ** The nicknames of the result *)

Lemma encode_utf8_keeps_ascii s : forall bs c,
  Codec.encode_utf8 s = Ok bs -> In c s -> 0 <= c < 128 -> In c bs.
Proof.
  induction s as [|x s IH]; intros bs c H Hin Hc; [destruct Hin|].
  cbn [Codec.encode_utf8] in H.
  destruct (Codec.utf8_char x) as [xb|] eqn:Ex; [|discriminate].
  destruct (Codec.encode_utf8 s) as [rest|] eqn:Es; [|discriminate].
  cbn [bind] in H. apply Ok_inj in H. subst bs. apply in_or_app.
  destruct Hin as [-> | Hin].
  - left. rewrite utf8_char_1 in Ex by lia. apply Ok_inj in Ex. subst xb.
    left. reflexivity.
  - right. exact (IH rest c eq_refl Hin Hc).
Qed.

Lemma fixMojibake_clean raw n :
  _fixMojibake raw = Ok n -> ~ In 10 raw -> clean n.
Proof.
  unfold _fixMojibake. intros H Hnl.
  destruct (Codec.encode_latin1 raw) as [bs|] eqn:E; [|discriminate].
  cbn [bind] in H. destruct (encode_latin1_inv raw bs E) as [-> _].
  pose proof (encode_decode_utf8 raw n H) as He. split.
  - exact (encode_utf8_ok_scalar n raw He).
  - intros Hin. apply Hnl.
    apply (encode_utf8_keeps_ascii n raw 10 He Hin). lia.
Qed.

Lemma scan_message_clean self m self' :
  scan_message self m = Ok self' ->
  Forall (fun r => clean (nickname r)) (_result self) ->
  Forall (fun r => clean (nickname r)) (_result self').
Proof.
  intros H Hc.
  destruct (scan_message_inv _ _ _ H)
    as [-> | (d & c0 & start & g & n & ts & _ & _ & Hr & _ & Hn & _ & ->)];
    [exact Hc|].
  cbn [append_result _result]. apply Forall_app. split; [exact Hc|].
  constructor; [|constructor]. cbn [nickname].
  unfold Regex.search in Hr. apply search_from_sound in Hr.
  destruct Hr as (_ & _ & (rest & -> & Hne & Hnl)).
  destruct (exists_last Hne) as (raw & c & ->).
  rewrite slice_phrase in Hn. apply (fixMojibake_clean raw n Hn).
  intros Hin. apply Forall_app in Hnl. destruct Hnl as [Hnl _].
  rewrite Forall_forall in Hnl. exact (Hnl 10 Hin eq_refl).
Qed.

Lemma scan_messages_clean ms : forall self,
  Forall (fun r => clean (nickname r)) (_result self) ->
  Forall (fun r => clean (nickname r)) (_result (fst (scan_messages self ms))).
Proof.
  induction ms as [|m ms IH]; intros self Hc; cbn [scan_messages];
    [exact Hc|].
  destruct (scan_message self m) as [s|e] eqn:E; [|exact Hc].
  apply IH. exact (scan_message_clean self m s E Hc).
Qed.

Lemma findInFile_clean fs self f :
  Forall (fun r => clean (nickname r)) (_result self) ->
  Forall (fun r => clean (nickname r)) (_result (_findInFile fs self f)).
Proof.
  intros Hc. unfold _findInFile. destruct (load fs f) as [jdata|];
    [|exact Hc].
  assert (Hd : Forall (fun r => clean (nickname r))
                      (_result (fst (scan_document self jdata)))).
  { unfold scan_document.
    destruct (not_participant self jdata) as [[|]|]; try exact Hc.
    destruct (ms <- subscript jdata (str "messages") ;; iter ms) as [ms|e];
      [|exact Hc].
    apply scan_messages_clean. exact Hc. }
  destruct (scan_document self jdata) as [s [e|]]; exact Hd.
Qed.

(** X14.  Every nickname a run collects holds Unicode scalar values only
    and no newline. *)
Theorem result_nicknames_clean (fs : filesystem) (self : finder) :
  (forall files,
     Forall (fun r => clean (nickname r)) (_result (findInFiles fs self files))) /\
  (forall path,
     Forall (fun r => clean (nickname r))
            (_result (findInDirectory fs self path))).
Proof.
  split.
  - intros files. unfold findInFiles.
    assert (H : forall s, Forall (fun r => clean (nickname r)) (_result s) ->
              Forall (fun r => clean (nickname r))
                     (_result (findInFiles_loop fs s files))).
    { induction files as [|f files IH]; intros s Hs; cbn [findInFiles_loop];
        [exact Hs|].
      destruct (isfile fs f); cbn [negb]; apply IH;
        [apply findInFile_clean; exact Hs | exact Hs]. }
    apply H. constructor.
  - intros path. unfold findInDirectory.
    destruct (isdir fs path); cbn [negb]; [|constructor].
    generalize (listdir fs path). intros names.
    assert (H : forall s, Forall (fun r => clean (nickname r)) (_result s) ->
              Forall (fun r => clean (nickname r))
                     (_result (fold_left
                        (fun self f => _findInFile fs self (path_join path f))
                        names s))).
    { induction names as [|f names IH]; intros s Hs; cbn [fold_left];
        [exact Hs|].
      apply IH. apply findInFile_clean. exact Hs. }
    apply H. constructor.
Qed.

(** ** The entry point, continued *)




Lemma fold_print_frame {A : Type} (ev : A -> event) (l : list A) : forall self,
  _result (fold_left (fun self x => print self (ev x)) l self) = _result self /\
  trace (fold_left (fun self x => print self (ev x)) l self)
  = trace self ++ map ev l.
Proof.
  induction l as [|x l IH]; intros self; cbn [fold_left map].
  - split; [reflexivity | now rewrite app_nil_r].
  - destruct (IH (print self (ev x))) as [Hr Ht]. rewrite Hr, Ht.
    cbn [print _result trace]. split; [reflexivity|].
    now rewrite <- app_assoc.
Qed.

Lemma printResult_result self : _result (printResult self) = _result self.
Proof.
  unfold printResult.
  rewrite (proj1 (fold_print_frame
                    (fun nc => Nickname_line (fst nc) (snd nc)) _ _)).
  reflexivity.
Qed.




(** X16.  Without a file and without a directory (none given, or the
    empty string), [main] prints the usage and exits with status 0:
    nothing is searched, printed as a result or written. *)
Theorem main_usage
    (fs : filesystem) (dir u : option pystr) (out : pystr) (finder0 : finder) :
  setUsername __init__ u = (finder0, None) ->
  truthy dir = false ->
  main fs (mkArgs [] dir u out) = (print finder0 Print_help, SysExit 0) /\
  _result finder0 = [] /\
  (trace finder0 = [] \/ exists name, trace finder0 = [INFO_skipping name]).
Proof.
  intros Hu Hd. split.
  - unfold main. cbn [args_username args_directory args_file]. rewrite Hu.
    destruct dir as [[|c d]|]; [reflexivity | discriminate | reflexivity].
  - unfold setUsername in Hu. destruct (truthy u).
    + destruct u as [name|].
      * destruct (_unfixMojibake name); [|discriminate].
        injection Hu as <-. cbn. split; [reflexivity|]. right.
        exists name. reflexivity.
      * injection Hu as <-. split; [reflexivity | left; reflexivity].
    + injection Hu as <-. split; [reflexivity | left; reflexivity].
Qed.

Lemma main_usage_witness :
  main empty_filesystem (mkArgs [] (Some []) (Some (str "Alice")) (str "o.json"))
  = (print (fst (setUsername __init__ (Some (str "Alice")))) Print_help,
     SysExit 0).
Proof.
  exact (proj1
    (main_usage empty_filesystem (Some []) (Some (str "Alice")) (str "o.json")
       (fst (setUsername __init__ (Some (str "Alice")))) eq_refl eq_refl)).
Defined.

(** X17.  A directory given as a non-empty string takes precedence: the
    files on the command line are ignored.  A directory given as the empty
    string counts as none: the files are searched. *)
Theorem main_directory_precedence
    (fs : filesystem) (files : list pystr) (u : option pystr) (out : pystr) :
  (forall c d,
     main fs (mkArgs files (Some (c :: d)) u out)
     = main fs (mkArgs [] (Some (c :: d)) u out)) /\
  main fs (mkArgs files (Some []) u out) = main fs (mkArgs files None u out).
Proof.
  split; [intros c d|]; unfold main;
    cbn [args_username args_directory args_file args_output];
    destruct (setUsername __init__ u) as [finder0 [e|]]; reflexivity.
Qed.

(** ** Documents of the wrong shape *)

(** X19.  A parsed file that is not an object, an object without
    [messages] that is not filtered out, and, when a username is
    configured, an object without [participants], each end in the per-file
    error: the trace grows by exactly that line, and the result and the
    rest of the finder are unchanged. *)
Theorem findInFile_bad_shape
    (fs : filesystem) (self : finder) (f : pystr) (jdata : pyval) :
  load fs f = Some jdata ->
  (forall d, jdata <> PDict d) \/
  (exists d, jdata = PDict d /\ truthy (username self) = true /\
             lookup (str "participants") d = None) \/
  (exists d, jdata = PDict d /\ not_participant self jdata <> Ok true /\
             lookup (str "messages") d = None) ->
  _findInFile fs self f = print self (Error_bad_json f) /\
  trace (_findInFile fs self f) = trace self ++ [Error_bad_json f] /\
  _result (_findInFile fs self f) = _result self.
Proof.
  intros Hl Hshape.
  assert (E : _findInFile fs self f = print self (Error_bad_json f)).
  { unfold _findInFile. rewrite Hl.
    destruct Hshape as [Hn | [(d & -> & Ht & Hp) | (d & -> & Hp & Hm)]].
    - unfold scan_document, not_participant.
      destruct jdata; try (destruct (truthy (username self)); reflexivity).
      destruct (Hn d eq_refl).
    - unfold scan_document, not_participant.
      rewrite Ht. cbn [subscript]. rewrite Hp. reflexivity.
    - unfold scan_document.
      destruct (not_participant self (PDict d)) as [[|]|];
        [congruence | | reflexivity].
      cbn [subscript]. rewrite Hm. reflexivity. }
  rewrite E. repeat split; reflexivity.
Qed.

Lemma findInFile_bad_shape_witness :
  _findInFile (one_file (str "a.json") (PList [])) __init__ (str "a.json")
  = print __init__ (Error_bad_json (str "a.json")) /\
  trace (_findInFile (one_file (str "a.json") (PList [])) __init__
           (str "a.json"))
  = [Error_bad_json (str "a.json")] /\
  _result (_findInFile (one_file (str "a.json") (PList [])) __init__
             (str "a.json"))
  = [].
Proof.
  refine (findInFile_bad_shape (one_file (str "a.json") (PList [])) __init__
            (str "a.json") (PList []) eq_refl _).
  left. discriminate.
Defined.

(** ** The printed summary *)

Lemma count_add_keys n c m :
  In m (map fst (count_add n c)) <-> m = n \/ In m (map fst c).
Proof.
  induction c as [|[a j] c IH]; cbn [count_add map fst In].
  - intuition.
  - destruct (str_eqb a n) eqn:E; cbn [map fst In].
    + apply str_eqb_eq in E. subst a. intuition.
    + rewrite IH. intuition.
Qed.

Lemma count_add_NoDup n c :
  NoDup (map fst c) -> NoDup (map fst (count_add n c)).
Proof.
  induction c as [|[a j] c IH]; cbn [count_add map fst]; intros H.
  - constructor; [intros [] | constructor].
  - destruct (str_eqb a n) eqn:E; cbn [map fst]; [exact H|].
    inversion H as [|x l Hn Hd]; subst. constructor; [|auto].
    rewrite count_add_keys. intros [-> | Hin]; [|contradiction].
    rewrite str_eqb_refl in E. discriminate.
Qed.

Lemma in_keys (c : list (pystr * nat)) m k : In (m, k) c -> In m (map fst c).
Proof. intros H. change m with (fst (m, k)). now apply in_map. Qed.

Lemma count_add_In n c m k :
  NoDup (map fst c) ->
  (In (m, k) (count_add n c) <->
   (m <> n /\ In (m, k) c) \/
   (m = n /\ ((exists k', k = S k' /\ In (n, k') c) \/
              (k = 1%nat /\ ~ In n (map fst c))))).
Proof.
  induction c as [|[a j] c IH]; cbn [count_add map fst]; intros Hd.
  - cbn [In]. split.
    + intros [[= <- <-] | []]. right. split; [reflexivity|].
      right. split; [reflexivity | intros []].
    + intros [[_ []] | [-> [(k' & _ & []) | [-> _]]]]. left. reflexivity.
  - inversion Hd as [|x l Hn Hd']; subst.
    destruct (str_eqb a n) eqn:E.
    + apply str_eqb_eq in E. subst a. cbn [In]. split.
      * intros [[= <- <-] | Hin].
        -- right. split; [reflexivity|]. left. exists j.
           split; [reflexivity | left; reflexivity].
        -- left. split; [|right; exact Hin].
           intros ->. apply Hn. exact (in_keys c n k Hin).
      * intros [[Hne [[= -> ->] | Hin]] | [-> [(k' & -> & [[= ->] | Hin]) | [_ Hno]]]].
        -- congruence.
        -- right. exact Hin.
        -- left. reflexivity.
        -- destruct (Hn (in_keys c n k' Hin)).
        -- destruct Hno. left. reflexivity.
    + assert (Han : a <> n).
      { intros ->. rewrite str_eqb_refl in E. discriminate. }
      cbn [In]. rewrite (IH Hd'). split.
      * intros [[= <- <-] | [[Hne Hin] | [-> [(k' & -> & Hin) | [-> Hno]]]]].
        -- left. split; [exact Han | left; reflexivity].
        -- left. split; [exact Hne | right; exact Hin].
        -- right. split; [reflexivity|]. left. exists k'.
           split; [reflexivity | right; exact Hin].
        -- right. split; [reflexivity|]. right. split; [reflexivity|].
           intros [Heq | Hin]; [exact (Han Heq) | exact (Hno Hin)].
      * intros [[Hne [Heq | Hin]] | [-> [(k' & -> & [[= Heq _] | Hin]) | [-> Hno]]]].
        -- left. exact Heq.
        -- right. left. split; assumption.
        -- destruct (Han Heq).
        -- right. right. split; [reflexivity|]. left. exists k'.
           split; [reflexivity | exact Hin].
        -- right. right. split; [reflexivity|]. right.
           split; [reflexivity|]. intros Hin. apply Hno. right. exact Hin.
Qed.

Lemma total_count_add n c : total (count_add n c) = S (total c).
Proof.
  induction c as [|[a j] c IH]; cbn [count_add total fold_right snd].
  - reflexivity.
  - destruct (str_eqb a n); cbn [total fold_right snd].
    + reflexivity.
    + fold (total (count_add n c)). fold (total c). rewrite IH. lia.
Qed.

Lemma Counter_fold names : forall c done,
  NoDup (map fst c) ->
  (forall m k, In (m, k) c <->
               k = count_occ pystr_eq_dec done m /\ (0 < k)%nat) ->
  NoDup (map fst (fold_left (fun c n => count_add n c) names c)) /\
  (forall m k,
     In (m, k) (fold_left (fun c n => count_add n c) names c) <->
     k = count_occ pystr_eq_dec (done ++ names) m /\ (0 < k)%nat) /\
  total (fold_left (fun c n => count_add n c) names c)
  = (total c + List.length names)%nat.
Proof.
  induction names as [|n names IH]; intros c done Hd Hc.
  - cbn [fold_left List.length]. rewrite app_nil_r.
    split; [exact Hd|]. split; [exact Hc | lia].
  - cbn [fold_left List.length].
    replace (done ++ n :: names) with ((done ++ [n]) ++ names)
      by (rewrite <- app_assoc; reflexivity).
    destruct (IH (count_add n c) (done ++ [n])) as (H1 & H2 & H3).
    + apply count_add_NoDup. exact Hd.
    + intros m k. rewrite (count_add_In n c m k Hd), count_occ_app.
      cbn [count_occ].
      assert (Hkey : In n (map fst c) <->
                     (0 < count_occ pystr_eq_dec done n)%nat).
      { split.
        - intros Hin. apply in_map_iff in Hin.
          destruct Hin as ([n' j] & Hf & Hin). cbn in Hf. subst n'.
          apply Hc in Hin. lia.
        - intros Hpos.
          apply (in_keys c n (count_occ pystr_eq_dec done n)).
          apply Hc. split; [reflexivity | exact Hpos]. }
      destruct (pystr_eq_dec n m) as [-> | Hne].
      * split.
        -- intros [[Hne _] | [_ [(k' & -> & Hin) | [-> Hno]]]].
           ++ congruence.
           ++ apply Hc in Hin. lia.
           ++ rewrite Hkey in Hno. lia.
        -- intros [-> _]. right. split; [reflexivity|].
           destruct (count_occ pystr_eq_dec done m) as [|j] eqn:Ej.
           ++ right. split; [reflexivity|]. rewrite Hkey. lia.
           ++ left. exists (S j). split; [lia|]. apply Hc. lia.
      * split.
        -- intros [[_ Hin] | [-> _]]; [|congruence].
           apply Hc in Hin. lia.
        -- intros [-> Hpos]. left. split; [congruence|]. apply Hc. lia.
    + split; [exact H1|]. split; [exact H2|].
      rewrite H3, total_count_add. lia.
Qed.

(** X18.  [printResult] leaves the result alone and prints the number of
    distinct nicknames followed by one line per distinct nickname: no
    nickname twice, each with the number of records that bear it, the
    counts adding up to the number of records. *)
Theorem printResult_counts (self : finder) :
  _result (printResult self) = _result self /\
  trace (printResult self)
  = trace self ++
    Found_nicknames (List.length (Counter (nicknames self))) ::
    map (fun nc => Nickname_line (fst nc) (snd nc)) (Counter (nicknames self)) /\
  NoDup (map fst (Counter (nicknames self))) /\
  (forall n k,
     In (n, k) (Counter (nicknames self)) <->
     k = count_occ pystr_eq_dec (nicknames self) n /\ (0 < k)%nat) /\
  total (Counter (nicknames self)) = List.length (_result self).
Proof.
  split; [apply printResult_result|]. split.
  - unfold printResult, nicknames.
    rewrite (proj2 (fold_print_frame
                      (fun nc => Nickname_line (fst nc) (snd nc)) _ _)).
    cbn [print trace]. rewrite <- app_assoc. reflexivity.
  - unfold Counter.
    destruct (Counter_fold (nicknames self) [] []) as (H1 & H2 & H3).
    + constructor.
    + intros m k. cbn. split; [intros [] | lia].
    + split; [exact H1|]. split; [exact H2|].
      rewrite H3. unfold nicknames. rewrite length_map. reflexivity.
Qed.
